(** * jsonref: a shallow embedding of [JsonRef] (src/src/lib.rs)

    The resolver of [lib.rs] rewrites a [serde_json::Value] in place.  Here
    [deref] takes the value and returns the rewritten one, threading the
    mutable parts of the resolver (the [JsonRef] struct with its schema
    cache, and the [definitions] accumulator passed by [&mut]) through a
    small state-and-error monad.  A Rust [panic!] or a failing [unwrap] is
    the outcome [Panic]; [Result::Err] is the outcome [Err].  The recursion
    of [deref] is not structural (a [$ref] restarts it on a loaded
    document), so it is given fuel, and running out of it is the outcome
    [OutOfFuel]: a run that is [OutOfFuel] for every fuel does not
    terminate. *)

From Stdlib Require Import String Ascii List Bool ZArith Lia.
Import ListNotations.
Open Scope list_scope.
Open Scope string_scope.

(** ** JSON values ([serde_json::Value]) *)

(** Numbers are kept as integers: no claim depends on floats.  Objects are
    [serde_json::Map], a [BTreeMap<String, Value>] in serde_json's default
    configuration: an association list sorted by key. *)
#[local] Set Warnings "-register-all".
Inductive Value : Type :=
| VNull
| VBool (b : bool)
| VNumber (n : Z)
| VString (s : string)
| VArray (l : list Value)
| VObject (m : list (string * Value)).

Definition Map : Type := list (string * Value).

Section Value_rect'.
Variable P : Value -> Prop.
Variable Q : list Value -> Prop.
Variable R : Map -> Prop.
Hypothesis HNull : P VNull.
Hypothesis HBool : forall b, P (VBool b).
Hypothesis HNumber : forall n, P (VNumber n).
Hypothesis HString : forall s, P (VString s).
Hypothesis HArray : forall l, Q l -> P (VArray l).
Hypothesis HObject : forall m, R m -> P (VObject m).
Hypothesis Qnil : Q [].
Hypothesis Qcons : forall v l, P v -> Q l -> Q (v :: l).
Hypothesis Rnil : R [].
Hypothesis Rcons : forall k v m, P v -> R m -> R ((k, v) :: m).

Fixpoint Value_ind' (v : Value) : P v :=
  match v with
  | VNull => HNull
  | VBool b => HBool b
  | VNumber n => HNumber n
  | VString s => HString s
  | VArray l =>
      HArray l ((fix go (l : list Value) : Q l :=
                   match l with
                   | [] => Qnil
                   | x :: t => Qcons x t (Value_ind' x) (go t)
                   end) l)
  | VObject m =>
      HObject m ((fix go (m : Map) : R m :=
                    match m with
                    | [] => Rnil
                    | (k, x) :: t => Rcons k x t (Value_ind' x) (go t)
                    end) m)
  end.
End Value_rect'.

(** ** [BTreeMap<String, Value>] operations *)

(** [get] returns the entry of the key; [remove] drops it; [insert] replaces
    the entry or adds it at its place in key order.  On maps with distinct
    keys (the only ones serde builds) these are [BTreeMap]'s operations;
    [remove] drops every entry of the key so that it stays total. *)
Fixpoint map_get (m : Map) (k : string) : option Value :=
  match m with
  | [] => None
  | (k', v) :: t => if String.eqb k k' then Some v else map_get t k
  end.

Definition map_remove (m : Map) (k : string) : Map :=
  filter (fun kv => negb (String.eqb k (fst kv))) m.

Fixpoint sorted_insert (k : string) (v : Value) (m : Map) : Map :=
  match m with
  | [] => [(k, v)]
  | (k', v') :: t =>
      match String.compare k k' with
      | Lt => (k, v) :: m
      | _ => (k', v') :: sorted_insert k v t
      end
  end.

Definition map_insert (m : Map) (k : string) (v : Value) : Map :=
  sorted_insert k v (map_remove m k).

Definition map_contains_key (m : Map) (k : string) : bool :=
  match map_get m k with Some _ => true | None => false end.

(** [Map::remove] returning the removed value. *)
Definition map_take (m : Map) (k : string) : option (Value * Map) :=
  match map_get m k with
  | Some v => Some (v, map_remove m k)
  | None => None
  end.

(** [Value::get] with a string index, and [Value::as_str]. *)
Definition value_get (v : Value) (k : string) : option Value :=
  match v with VObject m => map_get m k | _ => None end.

Definition as_str (v : Value) : option string :=
  match v with VString s => Some s | _ => None end.

Definition is_object (v : Value) : bool :=
  match v with VObject _ => true | _ => false end.

(** ** String helpers *)

(** Splits [s] at the first occurrence of [c]: the part before it, and the
    part after it if [c] occurs. *)
Fixpoint split_first (c : ascii) (s : string) : string * option string :=
  match s with
  | EmptyString => (EmptyString, None)
  | String x t =>
      if Ascii.eqb x c then (EmptyString, Some t)
      else let '(a, b) := split_first c t in (String x a, b)
  end.

(** [str::split(c)]: every piece, empty ones included. *)
Fixpoint split_on (c : ascii) (s : string) : list string :=
  match s with
  | EmptyString => [EmptyString]
  | String x t =>
      if Ascii.eqb x c then EmptyString :: split_on c t
      else match split_on c t with
           | p :: ps => String x p :: ps
           | [] => [String x EmptyString]
           end
  end.

Fixpoint join_with (sep : string) (l : list string) : string :=
  match l with
  | [] => EmptyString
  | [x] => x
  | x :: t => x ++ sep ++ join_with sep t
  end.

(** [str::replace(from, to)] for a two-character pattern. *)
Fixpoint replace2 (a b : ascii) (to : string) (s : string) : string :=
  match s with
  | String x ((String y t) as r) =>
      if Ascii.eqb x a && Ascii.eqb y b then to ++ replace2 a b to t
      else String x (replace2 a b to r)
  | _ => s
  end.

Definition in_range (lo hi : nat) (c : ascii) : bool :=
  let n := nat_of_ascii c in Nat.leb lo n && Nat.leb n hi.
Definition is_alpha (c : ascii) : bool := in_range 65 90 c || in_range 97 122 c.
Definition is_digit (c : ascii) : bool := in_range 48 57 c.
Definition to_lower (c : ascii) : ascii :=
  if in_range 65 90 c then ascii_of_nat (nat_of_ascii c + 32) else c.

Fixpoint str_map (f : ascii -> ascii) (s : string) : string :=
  match s with EmptyString => EmptyString | String c t => String (f c) (str_map f t) end.

Fixpoint str_all (p : ascii -> bool) (s : string) : bool :=
  match s with EmptyString => true | String c t => p c && str_all p t end.

(** ** The [url] crate, as far as [deref] uses it

    [Url::parse], [Url::join], [set_fragment], [fragment], [path] and
    [to_string].  A URL is its scheme, the part between ["scheme:"] and
    ["#"] (authority, path and query), and its fragment.  The model follows
    RFC 3986 reference resolution (fragment-only, network-path,
    absolute-path, query-only and relative-path references, with dot
    segments removed); it leaves out the crate's percent-encoding and host
    normalisation, which no claim depends on. *)
Record Url : Type := mkUrl {
  url_scheme : string;
  url_body : string;
  url_fragment : option string
}.

Definition scheme_char (c : ascii) : bool :=
  is_alpha c || is_digit c || Ascii.eqb c "+" || Ascii.eqb c "-" || Ascii.eqb c ".".

(** ["scheme:rest"] with a valid scheme, split into [(scheme, rest)]. *)
Definition parse_scheme (s : string) : option (string * string) :=
  match split_first ":" s with
  | (String c t as sc, Some rest) =>
      if is_alpha c && str_all scheme_char t
      then Some (str_map to_lower sc, rest) else None
  | _ => None
  end.

Definition url_parse (s : string) : option Url :=
  let '(pre, frag) := split_first "#" s in
  match parse_scheme pre with
  | Some (sc, body) => Some (mkUrl sc body frag)
  | None => None
  end.

Definition url_to_string (u : Url) : string :=
  url_scheme u ++ ":" ++ url_body u ++
  match url_fragment u with Some f => "#" ++ f | None => "" end.

Definition url_set_fragment (u : Url) (f : option string) : Url :=
  mkUrl (url_scheme u) (url_body u) f.

(** The body split into ["//host"] (empty without authority) and the path
    with its query. *)
Fixpoint take_host (s : string) : string * string :=
  match s with
  | EmptyString => (EmptyString, EmptyString)
  | String c t =>
      if Ascii.eqb c "/" || Ascii.eqb c "?" then (EmptyString, s)
      else let '(h, r) := take_host t in (String c h, r)
  end.

Definition split_authority (body : string) : string * string :=
  match body with
  | String "/" (String "/" t) => let '(h, r) := take_host t in ("//" ++ h, r)
  | _ => (EmptyString, body)
  end.

Definition url_path (u : Url) : string :=
  fst (split_first "?" (snd (split_authority (url_body u)))).

Definition pop (l : list string) : list string :=
  match l with [] => [] | _ :: t => t end.

(** RFC 3986 5.2.4 on the segments after the leading ["/"]; [acc] is
    reversed. *)
Fixpoint remove_dot_segments (acc : list string) (segs : list string) : list string :=
  match segs with
  | [] => rev acc
  | [s] =>
      if String.eqb s "." then rev ("" :: acc)
      else if String.eqb s ".." then rev ("" :: pop acc)
      else rev (s :: acc)
  | s :: t =>
      if String.eqb s "." then remove_dot_segments acc t
      else if String.eqb s ".." then remove_dot_segments (pop acc) t
      else remove_dot_segments (s :: acc) t
  end.

Definition normalize_path (pq : string) : string :=
  let '(p, q) := split_first "?" pq in
  "/" ++ join_with "/" (remove_dot_segments [] (tl (split_on "/" p))) ++
  match q with Some q => "?" ++ q | None => "" end.

(** The directory of a path: up to and including its last ["/"]. *)
Definition path_dir (p : string) : string :=
  join_with "/" (removelast (split_on "/" p)) ++ "/".

Definition url_join (base : Url) (r : string) : option Url :=
  let '(rpre, rfrag) := split_first "#" r in
  match parse_scheme rpre with
  | Some (sc, body) => Some (mkUrl sc body rfrag)
  | None =>
      let '(auth, pq) := split_authority (url_body base) in
      let path := match auth, fst (split_first "?" pq) with
                  | String _ _, EmptyString => "/"
                  | _, p => p
                  end in
      match rpre with
      | EmptyString => Some (mkUrl (url_scheme base) (url_body base) rfrag)
      | String "/" (String "/" _) => Some (mkUrl (url_scheme base) rpre rfrag)
      | String "/" _ => Some (mkUrl (url_scheme base) (auth ++ normalize_path rpre) rfrag)
      | String "?" _ => Some (mkUrl (url_scheme base) (auth ++ path ++ rpre) rfrag)
      | _ =>
          if String.prefix "/" path
          then Some (mkUrl (url_scheme base)
                           (auth ++ normalize_path (path_dir path ++ rpre)) rfrag)
          else None
      end
  end.

(** ** [Value::pointer] (serde_json) *)

Fixpoint digits_value (s : string) (acc : nat) : option nat :=
  match s with
  | EmptyString => Some acc
  | String c t =>
      if is_digit c then digits_value t (acc * 10 + (nat_of_ascii c - 48))
      else None
  end.

(** [usize::from_str] after serde_json's [parse_index] guard: no ["+"] and
    no leading zero. *)
Definition parse_index (s : string) : option nat :=
  if String.prefix "+" s || (String.prefix "0" s && negb (Nat.eqb (String.length s) 1))
  then None
  else match s with EmptyString => None | _ => digits_value s 0 end.

Definition unescape_token (t : string) : string :=
  replace2 "~" "0" "~" (replace2 "~" "1" "/" t).

Definition pointer_step (target : option Value) (token : string) : option Value :=
  match target with
  | Some (VObject m) => map_get m token
  | Some (VArray l) =>
      match parse_index token with Some i => nth_error l i | None => None end
  | _ => None
  end.

Definition pointer (v : Value) (p : string) : option Value :=
  if String.eqb p "" then Some v
  else if negb (String.prefix "/" p) then None
  else fold_left pointer_step (map unescape_token (tl (split_on "/" p))) (Some v).

(** ** Errors and the resolver's state *)

(** [enum Error] of [lib.rs]; the [source] fields (the underlying io, url,
    ureq or serde error) are left out. *)
Inductive Error : Type :=
| SchemaFromFile (filename : string)
| SchemaFromUrl (url : string)
| UrlParseError (url : string)
| SchemaNotJson (url : string)
| SchemaNotJsonSerde (url : string)
| JsonPointerNotFound (pointer : string)
| JSONRefError.

(** How the external loaders can fail: the request or the file open fails,
    or the body is not JSON. *)
Inductive LoadFailure : Type := IoFailure | ParseFailure.

(** [struct JsonRef]. *)
Record JsonRef : Type := mkJsonRef {
  schema_cache : Map;
  reference_key : option string
}.

Definition JsonRef_new : JsonRef := mkJsonRef [] None.

Definition set_reference_key (jr : JsonRef) (k : string) : JsonRef :=
  mkJsonRef (schema_cache jr) (Some k).

(** The state of one resolution session: the resolver, the [definitions]
    accumulator, and two ghost logs that the code does not keep: the
    identifiers handed to a loader, and the [definitions] maps merged into
    the accumulator, in order. *)
Record Session : Type := mkSession {
  jsonref : JsonRef;
  definitions : Value;
  loads : list string;
  defs_log : list Map
}.

Definition new_session (jr : JsonRef) : Session := mkSession jr (VObject []) [] [].

Inductive outcome (A : Type) : Type :=
| Ok (a : A)
| Err (e : Error)
| Panic (msg : string)
| OutOfFuel.
Arguments Ok {A} a.
Arguments Err {A} e.
Arguments Panic {A} msg.
Arguments OutOfFuel {A}.

Definition M (A : Type) : Type := Session -> outcome (A * Session).

Definition ret {A} (a : A) : M A := fun st => Ok (a, st).
Definition bind {A B} (m : M A) (k : A -> M B) : M B :=
  fun st =>
    match m st with
    | Ok (a, st') => k a st'
    | Err e => Err e
    | Panic msg => Panic msg
    | OutOfFuel => OutOfFuel
    end.
Definition fail {A} (e : Error) : M A := fun _ => Err e.
Definition panic {A} (msg : string) : M A := fun _ => Panic msg.

Notation "x <- c ;; k" := (bind c (fun x => k))
  (at level 61, c at next level, right associativity).

Definition ok_or {A} (o : option A) (e : Error) : M A :=
  match o with Some a => ret a | None => fail e end.

Definition unwrap_none_msg : string := "called `Option::unwrap()` on a `None` value".

(** [for v in obj.values_mut() { f(v)? }], in key order. *)
Fixpoint map_values_M (g : Value -> M Value) (m : Map) : M Map :=
  match m with
  | [] => ret []
  | (k, v) :: t => v' <- g v ;; t' <- map_values_M g t ;; ret ((k, v') :: t')
  end.

(** The entries of a [definitions] object inserted one by one into the
    accumulator ([accumulated_defs.insert(key, val.clone())]). *)
Definition merge_defs (acc def_obj : Map) : Map :=
  fold_left (fun a kv => map_insert a (fst kv) (snd kv)) def_obj acc.

(** Lines 324-334: remove ["definitions"] from the node and merge it into
    the accumulator when it is an object. *)
Definition take_definitions (obj : Map) : M Map :=
  fun st =>
    match map_get obj "definitions" with
    | None => Ok (obj, st)
    | Some defs =>
        let obj' := map_remove obj "definitions" in
        match defs with
        | VObject def_obj =>
            match definitions st with
            | VObject acc =>
                Ok (obj', mkSession (jsonref st) (VObject (merge_defs acc def_obj))
                                    (loads st) (defs_log st ++ [def_obj]))
            | _ => Panic unwrap_none_msg
            end
        | _ => Ok (obj', st)
        end
    end.

Definition pointer_msg (ref_string ref_fragment : string) : string :=
  "ref `" ++ ref_string ++ "` can not be resolved as pointer `" ++ ref_fragment ++
  "` can not be found in the schema".

Definition scheme_panic_msg : string := "need url to be a file or a http based url".

(** ** The resolver *)

Section Resolver.

(** The external loaders: [ureq::get(url).call()?.into_json()] and
    [serde_json::from_reader(fs::File::open(path)?)], and
    [fs::canonicalize]. *)
Variable http_get : string -> LoadFailure + Value.
Variable read_file : string -> LoadFailure + Value.
Variable canonicalize : string -> option string.

(** Lines 349-375: the cached schema, or a load on a cache miss. *)
Definition load_schema (ref_url_no_fragment : Url) (ref_no_fragment : string) : M Value :=
  fun st =>
    match map_get (schema_cache (jsonref st)) ref_no_fragment with
    | Some cached_schema => Ok (cached_schema, st)
    | None =>
        let st' := mkSession (jsonref st) (definitions st)
                             (loads st ++ [ref_no_fragment]) (defs_log st) in
        if String.prefix "http" ref_no_fragment then
          match http_get ref_no_fragment with
          | inr v => Ok (v, st')
          | inl IoFailure => Err (SchemaFromUrl ref_no_fragment)
          | inl ParseFailure => Err (SchemaNotJson ref_no_fragment)
          end
        else if String.prefix "file" ref_no_fragment then
          match read_file (url_path ref_url_no_fragment) with
          | inr v => Ok (v, st')
          | inl IoFailure => Err (SchemaFromFile ref_no_fragment)
          | inl ParseFailure => Err (SchemaNotJsonSerde ref_no_fragment)
          end
        else Panic scheme_panic_msg
    end.

(** Lines 377-380. *)
Definition cache_insert_absent (key : string) (schema : Value) : M unit :=
  fun st =>
    let jr := jsonref st in
    if map_contains_key (schema_cache jr) key then Ok (tt, st)
    else Ok (tt, mkSession (mkJsonRef (map_insert (schema_cache jr) key schema)
                                      (reference_key jr))
                           (definitions st) (loads st) (defs_log st)).

Definition get_reference_key : M (option string) :=
  fun st => Ok (reference_key (jsonref st), st).

(** Lines 316-321: the base id of a node, its own ["$id"] when that is a
    string. *)
Definition node_id (value : Value) (id : string) : string :=
  match value_get value "$id" with
  | Some (VString id_string) => id_string
  | _ => id
  end.

(** What the object part of [deref] (lines 323-405) leaves: [Stop] is the
    early [return Ok(())] of the cycle guard, [Continue] goes on to the
    descent of lines 407-411. *)
Inductive Step : Type := Stop (v : Value) | Continue (v : Value).

(** [JsonRef::deref] (lines 309-413). *)
Fixpoint deref (fuel : nat) (value : Value) (id : string) (used_refs : list string)
  {struct fuel} : M Value :=
  match fuel with
  | O => fun _ => OutOfFuel
  | S f =>
      let new_id := node_id value id in
      step <- match value with
              | VObject obj0 =>
                  obj <- take_definitions obj0 ;;
                  match map_take obj "$ref" with
                  | Some (VString ref_string, obj) =>
                      id_url <- ok_or (url_parse new_id) (UrlParseError new_id) ;;
                      ref_url <- ok_or (url_join id_url ref_string) (UrlParseError ref_string) ;;
                      let ref_url_no_fragment := url_set_fragment ref_url None in
                      let ref_no_fragment := url_to_string ref_url_no_fragment in
                      schema <- load_schema ref_url_no_fragment ref_no_fragment ;;
                      _ <- cache_insert_absent ref_no_fragment schema ;;
                      let ref_url_string := url_to_string ref_url in
                      schema <- match url_fragment ref_url with
                                | Some ref_fragment =>
                                    ok_or (pointer schema ref_fragment)
                                          (JsonPointerNotFound (pointer_msg ref_string ref_fragment))
                                | None => ret schema
                                end ;;
                      if existsb (String.eqb ref_url_string) used_refs
                      then ret (Stop (VObject obj))
                      else
                        schema <- deref f schema ref_no_fragment (used_refs ++ [ref_url_string]) ;;
                        let old_value := VObject obj in
                        rk <- get_reference_key ;;
                        ret (Continue
                               match rk, schema with
                               | Some reference_key, VObject new_obj =>
                                   VObject (map_insert new_obj reference_key old_value)
                               | _, _ => schema
                               end)
                  | Some (_, obj) => ret (Continue (VObject obj))
                  | None => ret (Continue (VObject obj))
                  end
              | _ => ret (Continue value)
              end ;;
      match step with
      | Stop v => ret v
      | Continue (VObject m) =>
          m' <- map_values_M (fun obj_value => deref f obj_value new_id used_refs) m ;;
          ret (VObject m')
      | Continue v => ret v
      end
  end.

(** [JsonRef::deref_value] (lines 224-238), with the current directory
    [cwd] ([None] when [env::current_dir] fails).  It returns the rewritten
    value and the final session. *)
Definition deref_value (cwd : option string) (fuel : nat) (jr : JsonRef) (value : Value)
  : outcome (Value * Session) :=
  match cwd with
  | None => Err JSONRefError
  | Some dir =>
      let anon_file_url := "file://" ++ dir ++ "/anon.json" in
      let jr1 := mkJsonRef (map_insert (schema_cache jr) anon_file_url value)
                           (reference_key jr) in
      deref fuel value anon_file_url [] (new_session jr1)
  end.

(** [JsonRef::deref_url] (lines 254-269). *)
Definition deref_url (fuel : nat) (jr : JsonRef) (url : string) : outcome (Value * Session) :=
  match http_get url with
  | inl IoFailure => Err (SchemaFromUrl url)
  | inl ParseFailure => Err (SchemaNotJson url)
  | inr value =>
      let jr1 := mkJsonRef (map_insert (schema_cache jr) url value) (reference_key jr) in
      deref fuel value url [] (new_session jr1)
  end.

(** [JsonRef::deref_file] (lines 288-307). *)
Definition deref_file (fuel : nat) (jr : JsonRef) (file_path : string)
  : outcome (Value * Session) :=
  match read_file file_path with
  | inl IoFailure => Err (SchemaFromFile file_path)
  | inl ParseFailure => Err (SchemaNotJsonSerde file_path)
  | inr value =>
      match canonicalize file_path with
      | None => Err JSONRefError
      | Some absolute_path =>
          let url := "file://" ++ absolute_path in
          let jr1 := mkJsonRef (map_insert (schema_cache jr) url value) (reference_key jr) in
          match deref fuel value url [] (new_session jr1) with
          | Ok (VObject val, st) =>
              Ok (VObject (map_insert val "definitions" (definitions st)), st)
          | Ok (_, _) => Panic unwrap_none_msg
          | Err e => Err e
          | Panic msg => Panic msg
          | OutOfFuel => OutOfFuel
          end
      end
  end.

End Resolver.

(** ** Concrete loaders and documents for the scenarios *)

Definition no_http : string -> LoadFailure + Value := fun _ => inl IoFailure.
Definition no_file : string -> LoadFailure + Value := fun _ => inl IoFailure.

Definition obj (l : list (string * Value)) : Value := VObject l.

Definition scenarioA : Value :=
  obj [("properties", obj [("prop1", obj [("title", VString "name")]);
                           ("prop2", obj [("$ref", VString "#/properties/prop1")])])].

Definition scenarioA_expected : Value :=
  obj [("properties", obj [("prop1", obj [("title", VString "name")]);
                           ("prop2", obj [("title", VString "name")])])].

Definition scenarioB : Value :=
  obj [("properties", obj [("prop1", obj [("title", VString "name")]);
                           ("prop2", obj [("$ref", VString "#/properties/prop1");
                                          ("title", VString "old_title")])])].

Definition scenarioB_expected : Value :=
  obj [("properties", obj [("prop1", obj [("title", VString "name")]);
                           ("prop2", obj [("__reference__", obj [("title", VString "old_title")]);
                                          ("title", VString "name")])])].

(** The value a run returns, if it returns one. *)
Definition result_value (o : outcome (Value * Session)) : option Value :=
  match o with Ok (v, _) => Some v | _ => None end.

(** ** Lemmas on maps and on the steps of [deref] *)

Lemma map_get_remove_same (m : Map) (k : string) : map_get (map_remove m k) k = None.
Proof.
  induction m as [|[k' v] t IH]; simpl; [reflexivity|].
  destruct (String.eqb k k') eqn:E; simpl; [exact IH|].
  rewrite E. exact IH.
Qed.

Lemma map_get_remove_other (m : Map) (k k' : string) :
  k <> k' -> map_get (map_remove m k) k' = map_get m k'.
Proof.
  intros Hne. induction m as [|[k0 v] t IH]; simpl; [reflexivity|].
  destruct (String.eqb k k0) eqn:E; simpl.
  - apply String.eqb_eq in E. subst k0.
    destruct (String.eqb k' k) eqn:E'; [apply String.eqb_eq in E'; congruence | exact IH].
  - destruct (String.eqb k' k0); [reflexivity | exact IH].
Qed.

Lemma map_remove_absent (m : Map) (k : string) :
  map_get m k = None -> map_remove m k = m.
Proof.
  induction m as [|[k0 v] t IH]; simpl; intros H; [reflexivity|].
  destruct (String.eqb k k0) eqn:E; [discriminate|].
  simpl. rewrite IH by exact H. reflexivity.
Qed.

(** Removing the ["definitions"] key of a node keeps the cache and the load
    log, and the accumulator stays an object. *)
Lemma take_definitions_ok (obj0 : Map) (st : Session) :
  is_object (definitions st) = true ->
  exists st', take_definitions obj0 st = Ok (map_remove obj0 "definitions", st') /\
              jsonref st' = jsonref st /\ loads st' = loads st /\
              is_object (definitions st') = true.
Proof.
  intros Hacc. unfold take_definitions.
  destruct (map_get obj0 "definitions") as [defs|] eqn:Hd.
  - destruct defs; try (exists st; repeat split; assumption).
    destruct (definitions st) eqn:Hdef; try discriminate.
    eexists. split; [reflexivity|]. simpl. repeat split.
  - exists st. rewrite map_remove_absent by exact Hd. repeat split. assumption.
Qed.

(** The schema found for a reference depends only on the resolver's cache. *)
Lemma load_schema_indep http_get read_file (u : Url) (key : string) (st st2 : Session) v st' :
  load_schema http_get read_file u key st = Ok (v, st') ->
  jsonref st2 = jsonref st ->
  exists st2', load_schema http_get read_file u key st2 = Ok (v, st2').
Proof.
  unfold load_schema. intros H Hj. rewrite Hj.
  destruct (map_get (schema_cache (jsonref st)) key).
  - inversion H; subst. eexists; reflexivity.
  - destruct (String.prefix "http" key);
      [| destruct (String.prefix "file" key)];
      [ destruct (http_get key) as [[|]|] | destruct (read_file (url_path u)) as [[|]|] | ];
      try discriminate; inversion H; subst; eexists; reflexivity.
Qed.

(** The first steps of [deref] at an object node holding a string
    ["$ref"]: the ["definitions"] key is taken out, then the reference is
    parsed and joined against the node's base id. *)
Lemma deref_ref_node http_get read_file f obj id used st r :
  is_object (definitions st) = true ->
  map_get obj "$ref" = Some (VString r) ->
  exists st1,
    jsonref st1 = jsonref st /\ loads st1 = loads st /\ is_object (definitions st1) = true /\
    deref http_get read_file (S f) (VObject obj) id used st =
    (step <- (id_url <- ok_or (url_parse (node_id (VObject obj) id))
                                (UrlParseError (node_id (VObject obj) id)) ;;
              ref_url <- ok_or (url_join id_url r) (UrlParseError r) ;;
              let ref_url_no_fragment := url_set_fragment ref_url None in
              let ref_no_fragment := url_to_string ref_url_no_fragment in
              schema <- load_schema http_get read_file ref_url_no_fragment ref_no_fragment ;;
              _ <- cache_insert_absent ref_no_fragment schema ;;
              let ref_url_string := url_to_string ref_url in
              schema <- match url_fragment ref_url with
                        | Some ref_fragment =>
                            ok_or (pointer schema ref_fragment)
                                  (JsonPointerNotFound (pointer_msg r ref_fragment))
                        | None => ret schema
                        end ;;
              if existsb (String.eqb ref_url_string) used
              then ret (Stop (VObject (map_remove (map_remove obj "definitions") "$ref")))
              else
                schema <- deref http_get read_file f schema ref_no_fragment
                                (used ++ [ref_url_string]) ;;
                rk <- get_reference_key ;;
                ret (Continue
                       match rk, schema with
                       | Some reference_key, VObject new_obj =>
                           VObject (map_insert new_obj reference_key
                                      (VObject (map_remove (map_remove obj "definitions") "$ref")))
                       | _, _ => schema
                       end)) ;;
     match step with
     | Stop v => ret v
     | Continue (VObject m) =>
         m' <- map_values_M (fun obj_value =>
                 deref http_get read_file f obj_value (node_id (VObject obj) id) used) m ;;
         ret (VObject m')
     | Continue v => ret v
     end) st1.
Proof.
  intros Hacc Href.
  destruct (take_definitions_ok obj st Hacc) as (st1 & Htake & Hj & Hl & Ha).
  exists st1. split; [exact Hj|]. split; [exact Hl|]. split; [exact Ha|].
  simpl deref. unfold bind at 1 2. rewrite Htake.
  unfold map_take.
  rewrite map_get_remove_other by discriminate. rewrite Href.
  reflexivity.
Qed.

(** * Claims *)

(** The key under which a reference's document is cached and loaded. *)
Definition ref_key (u : Url) : string := url_to_string (url_set_fragment u None).

(** ** C1 *)

(** C1 (amended): a string ["$ref"] whose fragment-stripped absolute URL is
    not in the cache and starts with neither ["http"] nor ["file"] makes
    [deref] panic with "need url to be a file or a http based url"; no
    [Error] value is returned. *)
Theorem deref_unsupported_scheme_panics http_get read_file f obj id used st r base u :
  is_object (definitions st) = true ->
  map_get obj "$ref" = Some (VString r) ->
  url_parse (node_id (VObject obj) id) = Some base ->
  url_join base r = Some u ->
  map_get (schema_cache (jsonref st)) (ref_key u) = None ->
  String.prefix "http" (ref_key u) = false ->
  String.prefix "file" (ref_key u) = false ->
  deref http_get read_file (S f) (VObject obj) id used st = Panic scheme_panic_msg.
Proof.
  intros Hacc Href Hp Hj Hc Hh Hf.
  destruct (deref_ref_node http_get read_file f obj id used st r Hacc Href)
    as (st1 & Hjr & _ & _ & ->).
  unfold bind, ok_or, ret. rewrite Hp, Hj.
  unfold load_schema. rewrite Hjr. fold (ref_key u). rewrite Hc, Hh, Hf.
  reflexivity.
Qed.

Definition ftp_doc : Value := obj [("$ref", VString "ftp://example.com/schema.json")].

(** C1, counterexample: resolving [{"$ref": "ftp://example.com/schema.json"}]
    with [deref_value] panics instead of returning an error. *)
Lemma deref_value_ftp_panics :
  deref_value no_http no_file (Some "/work") 5 JsonRef_new ftp_doc = Panic scheme_panic_msg.
Proof. vm_compute. reflexivity. Qed.

Lemma deref_unsupported_scheme_panics_witness :
  deref no_http no_file 5 ftp_doc "file:///work/anon.json" []
        (new_session (mkJsonRef [("file:///work/anon.json", ftp_doc)] None))
  = Panic scheme_panic_msg.
Proof.
  apply (deref_unsupported_scheme_panics no_http no_file 4
           [("$ref", VString "ftp://example.com/schema.json")]
           "file:///work/anon.json" [] _ "ftp://example.com/schema.json"
           (mkUrl "file" "///work/anon.json" None)
           (mkUrl "ftp" "//example.com/schema.json" None));
    vm_compute; reflexivity.
Defined.

(** ** C8 *)

(** C8: when the document loaded for a string ["$ref"] has no value at the
    reference's fragment, [deref] fails with [JsonPointerNotFound] whose
    message names the reference string and the fragment. *)
Theorem deref_pointer_not_found http_get read_file f obj id used st r base u frag doc st' :
  is_object (definitions st) = true ->
  map_get obj "$ref" = Some (VString r) ->
  url_parse (node_id (VObject obj) id) = Some base ->
  url_join base r = Some u ->
  url_fragment u = Some frag ->
  load_schema http_get read_file (url_set_fragment u None) (ref_key u) st = Ok (doc, st') ->
  pointer doc frag = None ->
  deref http_get read_file (S f) (VObject obj) id used st =
  Err (JsonPointerNotFound (pointer_msg r frag)).
Proof.
  intros Hacc Href Hp Hj Hfr Hload Hptr.
  destruct (deref_ref_node http_get read_file f obj id used st r Hacc Href)
    as (st1 & Hjr & _ & _ & ->).
  destruct (load_schema_indep http_get read_file _ _ st st1 doc st' Hload Hjr) as [st2 Hl2].
  unfold bind at 1. unfold bind at 1. unfold ok_or at 1. rewrite Hp.
  unfold ret at 1. unfold bind at 1. unfold ok_or at 1. rewrite Hj.
  unfold ret at 1. unfold bind at 1. fold (ref_key u). rewrite Hl2.
  unfold bind at 1. unfold cache_insert_absent.
  destruct (map_contains_key _ _);
    unfold bind at 1; rewrite Hfr; unfold ok_or; rewrite Hptr; reflexivity.
Qed.

Definition missing_pointer_doc : Value := obj [("$ref", VString "#/definitions/missing")].

Lemma deref_pointer_not_found_witness :
  deref no_http no_file 5 missing_pointer_doc "file:///work/anon.json" []
        (new_session (mkJsonRef [("file:///work/anon.json", missing_pointer_doc)] None))
  = Err (JsonPointerNotFound (pointer_msg "#/definitions/missing" "/definitions/missing")).
Proof.
  apply (deref_pointer_not_found no_http no_file 4
           [("$ref", VString "#/definitions/missing")]
           "file:///work/anon.json" [] _ "#/definitions/missing"
           (mkUrl "file" "///work/anon.json" None)
           (mkUrl "file" "///work/anon.json" (Some "/definitions/missing"))
           "/definitions/missing" missing_pointer_doc
           (new_session (mkJsonRef [("file:///work/anon.json", missing_pointer_doc)] None)));
    vm_compute; reflexivity.
Defined.

(** ** C4 *)

(** C4: Scenario A.  With no [reference_key], [deref_value] turns
    [{"properties":{"prop1":{"title":"name"},"prop2":{"$ref":"#/properties/prop1"}}}]
    into [{"properties":{"prop1":{"title":"name"},"prop2":{"title":"name"}}}],
    whatever the loaders (none is called). *)
Theorem scenarioA_deref_value http_get read_file :
  result_value (deref_value http_get read_file (Some "/work") 10 JsonRef_new scenarioA)
  = Some scenarioA_expected.
Proof. reflexivity. Qed.

(** ** C5 *)

(** Scenario B.  With [reference_key] set to ["__reference__"], the node
    [{"$ref":"#/properties/prop1","title":"old_title"}] becomes the resolved
    [{"title":"name"}] with the former sibling content [{"title":"old_title"}]
    under ["__reference__"]. *)
Theorem scenarioB_deref_value http_get read_file :
  result_value (deref_value http_get read_file (Some "/work") 10
                            (set_reference_key JsonRef_new "__reference__") scenarioB)
  = Some scenarioB_expected.
Proof. reflexivity. Qed.

(** ** C9 *)

(** C9: at an object node whose ["$ref"] is not a string, [deref] drops the
    ["$ref"] key (after taking out ["definitions"]), substitutes nothing,
    raises nothing at the node itself, and goes on resolving the node's
    remaining values with the node's base id. *)
Theorem deref_non_string_ref http_get read_file f obj id used st v :
  is_object (definitions st) = true ->
  map_get obj "$ref" = Some v ->
  as_str v = None ->
  exists st1,
    take_definitions obj st = Ok (map_remove obj "definitions", st1) /\
    deref http_get read_file (S f) (VObject obj) id used st =
    (m' <- map_values_M (fun obj_value =>
             deref http_get read_file f obj_value (node_id (VObject obj) id) used)
             (map_remove (map_remove obj "definitions") "$ref") ;;
     ret (VObject m')) st1.
Proof.
  intros Hacc Href Hstr.
  destruct (take_definitions_ok obj st Hacc) as (st1 & Htake & _ & _ & _).
  exists st1. split; [exact Htake|].
  simpl deref. unfold bind at 1 2. rewrite Htake.
  unfold map_take. rewrite map_get_remove_other by discriminate. rewrite Href.
  destruct v; try discriminate; reflexivity.
Qed.

Definition numeric_ref_doc : Value :=
  obj [("$ref", VNumber 5); ("a", obj [("title", VString "t")])].

Lemma deref_non_string_ref_witness :
  exists st1,
    take_definitions [("$ref", VNumber 5); ("a", obj [("title", VString "t")])]
                     (new_session JsonRef_new)
    = Ok ([("$ref", VNumber 5); ("a", obj [("title", VString "t")])], st1) /\
    deref no_http no_file 3 numeric_ref_doc "file:///work/anon.json" [] (new_session JsonRef_new) =
    (m' <- map_values_M (fun obj_value =>
             deref no_http no_file 2 obj_value "file:///work/anon.json" [])
             [("a", obj [("title", VString "t")])] ;;
     ret (VObject m')) st1.
Proof.
  apply (deref_non_string_ref no_http no_file 2
           [("$ref", VNumber 5); ("a", obj [("title", VString "t")])]
           "file:///work/anon.json" [] (new_session JsonRef_new) (VNumber 5));
    reflexivity.
Defined.

(** ** C10 *)

(** C10: when the resolved root document of [deref_file] is not an object,
    [deref_file] panics ([unwrap] on [None]) instead of returning an
    error. *)
Theorem deref_file_non_object_root_panics http_get read_file canonicalize f jr file_path
    value absolute_path v' st :
  read_file file_path = inr value ->
  canonicalize file_path = Some absolute_path ->
  deref http_get read_file f value ("file://" ++ absolute_path) []
        (new_session (mkJsonRef (map_insert (schema_cache jr) ("file://" ++ absolute_path) value)
                                (reference_key jr))) = Ok (v', st) ->
  is_object v' = false ->
  deref_file http_get read_file canonicalize f jr file_path = Panic unwrap_none_msg.
Proof.
  intros Hr Hc Hd Ho. unfold deref_file. rewrite Hr, Hc. simpl in Hd |- *.
  rewrite Hd. destruct v'; try discriminate; reflexivity.
Qed.

Definition array_file : string -> LoadFailure + Value :=
  fun _ => inr (VArray [VNumber 1; VNumber 2]).
Definition canon_work : string -> option string := fun p => Some ("/work/" ++ p).

Lemma deref_file_non_object_root_panics_witness :
  deref_file no_http array_file canon_work 5 JsonRef_new "list.json" = Panic unwrap_none_msg.
Proof.
  apply (deref_file_non_object_root_panics no_http array_file canon_work 5 JsonRef_new
           "list.json" (VArray [VNumber 1; VNumber 2]) "/work/list.json"
           (VArray [VNumber 1; VNumber 2])
           (new_session (mkJsonRef [("file:///work/list.json", VArray [VNumber 1; VNumber 2])]
                                   None)));
    reflexivity.
Defined.

(** ** C3 *)

Definition anon_url : string := "file:///work/anon.json".

(** [{"$ref": "#"}] *)
Definition self_ref : Value := obj [("$ref", VString "#")].

(** [{"$ref": "#", "x": {"$ref": "#"}}]: a root self-reference with a
    sibling that holds the same reference. *)
Definition self_ref_sibling : Value := obj [("$ref", VString "#"); ("x", self_ref)].

Definition self_ref_session : Session :=
  new_session (mkJsonRef [(anon_url, self_ref_sibling)] None).

(** The test [json_with_recursion]: the first level expands and the repeated
    ["#"] is left as an empty object. *)
Example json_with_recursion_deref :
  result_value (deref_value no_http no_file (Some "/work") 10 JsonRef_new
                  (obj [("properties", obj [("prop1", self_ref)])]))
  = Some (obj [("properties", obj [("prop1",
             obj [("properties", obj [("prop1", obj [])])])])]).
Proof. vm_compute. reflexivity. Qed.

(** Inside the expansion of ["#"] (used refs [anon#]), the root's own
    ["$ref"] is cut by the cycle guard, which returns before descending into
    the sibling ["x"]. *)
Lemma self_ref_sibling_cut http_get read_file g :
  deref http_get read_file (S g) self_ref_sibling anon_url [anon_url ++ "#"] self_ref_session
  = Ok (obj [("x", self_ref)], self_ref_session).
Proof. reflexivity. Qed.

(** Back at used refs [[]], the expansion is descended again, so the
    sibling's ["#"] expands anew, forever. *)
Lemma self_ref_step http_get read_file g :
  deref http_get read_file (S (S g)) self_ref anon_url [] self_ref_session =
  (m' <- map_values_M (fun v => deref http_get read_file (S g) v anon_url [])
                       [("x", self_ref)] ;;
   ret (VObject m')) self_ref_session.
Proof. reflexivity. Qed.

Lemma self_ref_diverges http_get read_file fuel :
  deref http_get read_file fuel self_ref anon_url [] self_ref_session = OutOfFuel.
Proof.
  induction fuel as [|f IH]; [reflexivity|].
  destruct f as [|g]; [reflexivity|].
  rewrite self_ref_step. unfold map_values_M, bind. rewrite IH. reflexivity.
Qed.

Lemma self_ref_sibling_step http_get read_file g :
  deref http_get read_file (S (S g)) self_ref_sibling anon_url [] self_ref_session =
  (m' <- map_values_M (fun v => deref http_get read_file (S g) v anon_url [])
                       [("x", self_ref)] ;;
   ret (VObject m')) self_ref_session.
Proof. reflexivity. Qed.

(** C3 (code bug): a document whose root is [{"$ref": "#"}] with a sibling
    [{"$ref": "#"}] never finishes resolving: [deref_value] runs out of fuel
    for every fuel, i.e. the recursion is unbounded. *)
Theorem root_self_ref_unbounded http_get read_file fuel :
  deref_value http_get read_file (Some "/work") fuel JsonRef_new self_ref_sibling = OutOfFuel.
Proof.
  change (deref_value http_get read_file (Some "/work") fuel JsonRef_new self_ref_sibling)
    with (deref http_get read_file fuel self_ref_sibling anon_url [] self_ref_session).
  destruct fuel as [|[|g]]; [reflexivity|reflexivity|].
  rewrite self_ref_sibling_step. unfold map_values_M, bind.
  rewrite self_ref_diverges. reflexivity.
Qed.

(** ** C2 *)

(** No ["$ref"] key anywhere in the tree (arrays included). *)
Fixpoint no_ref (v : Value) : bool :=
  match v with
  | VArray l => forallb no_ref l
  | VObject m => forallb (fun kv => negb (String.eqb (fst kv) "$ref") && no_ref (snd kv)) m
  | _ => true
  end.

(** What [deref] does to a tree without references: every object reached
    through objects loses its ["definitions"] key; arrays are not entered
    (lines 407-411 descend only into objects). *)
Fixpoint strip_defs (v : Value) : Value :=
  match v with
  | VObject m => VObject (map_remove (map (fun kv => (fst kv, strip_defs (snd kv))) m) "definitions")
  | _ => v
  end.

(** Nesting depth of objects inside objects. *)
Fixpoint depth (v : Value) : nat :=
  match v with
  | VObject m => S (list_max (map (fun kv => depth (snd kv)) m))
  | _ => 0
  end.

Lemma map_remove_map_values (g : Value -> Value) (m : Map) (k : string) :
  map_remove (map (fun kv => (fst kv, g (snd kv))) m) k =
  map (fun kv => (fst kv, g (snd kv))) (map_remove m k).
Proof.
  induction m as [|[k0 v] t IH]; simpl; [reflexivity|].
  destruct (String.eqb k k0); simpl; rewrite IH; reflexivity.
Qed.

Lemma forallb_map_remove (p : string * Value -> bool) (m : Map) (k : string) :
  forallb p m = true -> forallb p (map_remove m k) = true.
Proof.
  induction m as [|kv t IH]; simpl; [reflexivity|].
  intros H. apply andb_true_iff in H as [H1 H2].
  destruct (negb (String.eqb k (fst kv))); simpl; rewrite ?H1, IH; auto.
Qed.

Lemma no_ref_get (m : Map) :
  forallb (fun kv => negb (String.eqb (fst kv) "$ref") && no_ref (snd kv)) m = true ->
  map_get m "$ref" = None.
Proof.
  induction m as [|[k v] t IH]; intros H; [reflexivity|].
  cbn [forallb fst snd] in H.
  apply andb_true_iff in H as [H1 H2]. apply andb_true_iff in H1 as [H1 _].
  cbn [map_get]. rewrite String.eqb_sym.
  destruct (String.eqb k "$ref"); [discriminate|]. auto.
Qed.

Lemma depth_children_bound (m : Map) (n : nat) :
  list_max (map (fun kv => depth (snd kv)) m) < n ->
  Forall (fun kv => depth (snd kv) < n) m.
Proof.
  induction m as [|kv t IH]; simpl; intros H; constructor.
  - lia.
  - apply IH. lia.
Qed.

Lemma Forall_map_remove {P : string * Value -> Prop} (m : Map) (k : string) :
  Forall P m -> Forall P (map_remove m k).
Proof.
  intros H. unfold map_remove. apply Forall_forall. intros x Hx.
  apply filter_In in Hx as [Hx _]. eapply Forall_forall in H; eauto.
Qed.

Section NoRef.
Variable http_get : string -> LoadFailure + Value.
Variable read_file : string -> LoadFailure + Value.

Lemma map_values_no_ref f id used :
  (forall v st, is_object (definitions st) = true -> no_ref v = true -> depth v < f ->
     exists st', deref http_get read_file f v id used st = Ok (strip_defs v, st') /\
                 is_object (definitions st') = true) ->
  forall m st, is_object (definitions st) = true ->
  forallb (fun kv => negb (String.eqb (fst kv) "$ref") && no_ref (snd kv)) m = true ->
  Forall (fun kv => depth (snd kv) < f) m ->
  exists st', map_values_M (fun v => deref http_get read_file f v id used) m st =
              Ok (map (fun kv => (fst kv, strip_defs (snd kv))) m, st') /\
              is_object (definitions st') = true.
Proof.
  intros IH m. induction m as [|[k v] t IHm]; intros st Hacc Hnr Hd.
  - exists st. split; [reflexivity | exact Hacc].
  - simpl in Hnr. apply andb_true_iff in Hnr as [Hkv Ht].
    apply andb_true_iff in Hkv as [_ Hv].
    inversion Hd as [|? ? Hdv Hdt]; subst.
    destruct (IH v st Hacc Hv Hdv) as (st1 & Hd1 & Ha1).
    destruct (IHm st1 Ha1 Ht Hdt) as (st2 & Hd2 & Ha2).
    exists st2. split; [|exact Ha2].
    simpl. unfold bind at 1. rewrite Hd1. unfold bind. rewrite Hd2. reflexivity.
Qed.

Lemma deref_no_ref fuel :
  forall v id used st, is_object (definitions st) = true -> no_ref v = true -> depth v < fuel ->
  exists st', deref http_get read_file fuel v id used st = Ok (strip_defs v, st') /\
              is_object (definitions st') = true.
Proof.
  induction fuel as [|f IH]; intros v id used st Hacc Hnr Hd; [simpl in Hd; lia|].
  destruct v as [| | | | l | m];
    try (exists st; split; [reflexivity | exact Hacc]).
  destruct (take_definitions_ok m st Hacc) as (st1 & Htake & _ & _ & Ha1).
  simpl in Hnr, Hd.
  assert (Hnr1 := forallb_map_remove _ m "definitions" Hnr).
  assert (Hd1 : Forall (fun kv => depth (snd kv) < f) (map_remove m "definitions")).
  { apply Forall_map_remove. apply depth_children_bound. lia. }
  destruct (map_values_no_ref f (node_id (VObject m) id) used
              (fun v st => IH v (node_id (VObject m) id) used st)
              (map_remove m "definitions") st1 Ha1 Hnr1 Hd1) as (st2 & Hmv & Ha2).
  exists st2. split; [|exact Ha2].
  simpl deref. unfold bind at 1 2. rewrite Htake.
  unfold map_take. rewrite (no_ref_get _ Hnr1).
  unfold ret at 1. unfold bind. fold (node_id (VObject m) id). rewrite Hmv.
  simpl. rewrite map_remove_map_values. reflexivity.
Qed.

End NoRef.

Definition defs_only_doc : Value :=
  obj [("definitions", obj [("a", obj [("type", VString "string")])])].

(** C2, counterexample: a document with no ["$ref"] but a ["definitions"]
    key is not left unchanged by [deref_value]: the key is removed. *)
Lemma deref_value_no_ref_not_identity :
  result_value (deref_value no_http no_file (Some "/work") 5 JsonRef_new defs_only_doc)
  = Some (obj []) /\ obj [] <> defs_only_doc.
Proof. split; [vm_compute; reflexivity | discriminate]. Qed.

(** C2 (amended): for a document with no ["$ref"] key anywhere and enough
    fuel, [deref_value] succeeds and returns the document with the
    ["definitions"] key removed from every object reached through objects;
    nothing else changes. *)
Theorem deref_value_no_ref http_get read_file dir fuel jr v :
  no_ref v = true ->
  depth v < fuel ->
  result_value (deref_value http_get read_file (Some dir) fuel jr v) = Some (strip_defs v).
Proof.
  intros Hnr Hd. unfold deref_value.
  destruct (deref_no_ref http_get read_file fuel v ("file://" ++ dir ++ "/anon.json") []
              (new_session (mkJsonRef (map_insert (schema_cache jr)
                                         ("file://" ++ dir ++ "/anon.json") v)
                                      (reference_key jr))) eq_refl Hnr Hd)
    as (st' & -> & _).
  reflexivity.
Qed.

(** On a document with no ["definitions"] key either, that is the identity. *)
Fixpoint no_defs (v : Value) : bool :=
  match v with
  | VObject m => forallb (fun kv => negb (String.eqb (fst kv) "definitions") && no_defs (snd kv)) m
  | _ => true
  end.

Lemma strip_defs_no_defs (v : Value) : no_defs v = true -> strip_defs v = v.
Proof.
  induction v using Value_ind'
    with (Q := fun _ => True)
         (R := fun m => forallb (fun kv => negb (String.eqb (fst kv) "definitions")
                                           && no_defs (snd kv)) m = true ->
                        map_remove (map (fun kv => (fst kv, strip_defs (snd kv))) m)
                                   "definitions" = m);
    intros; try reflexivity; try exact I.
  - match goal with
    | IHm : _ -> map_remove _ _ = ?m, Hm : no_defs (VObject ?m) = true |- _ =>
        simpl; f_equal; apply IHm; exact Hm
    end.
  - match goal with
    | Hv : no_defs ?v = true -> strip_defs ?v = ?v,
      Ht : _ -> map_remove _ _ = ?t,
      H : forallb _ ((?k, ?v) :: ?t) = true |- _ =>
        cbn [forallb fst snd] in H; apply andb_true_iff in H as [Hk Hrest];
        apply andb_true_iff in Hk as [Hk Hvd];
        cbn [map fst snd]; unfold map_remove; cbn [filter fst];
        rewrite String.eqb_sym; destruct (String.eqb k "definitions"); [discriminate|];
        cbn [negb]; rewrite (Hv Hvd); f_equal; apply Ht; exact Hrest
    end.
Qed.

Definition defs_and_props_doc : Value :=
  obj [("definitions", obj [("a", obj [])]); ("p", obj [("title", VString "t")])].

Lemma deref_value_no_ref_witness :
  result_value (deref_value no_http no_file (Some "/work") 5 JsonRef_new defs_and_props_doc)
  = Some (obj [("p", obj [("title", VString "t")])]).
Proof.
  apply (deref_value_no_ref no_http no_file "/work" 5 JsonRef_new defs_and_props_doc);
    vm_compute; [reflexivity | lia].
Defined.

(** ** Inverting runs that succeed *)

Lemma bind_ok {A B} (m : M A) (k : A -> M B) st r :
  bind m k st = Ok r -> exists a st1, m st = Ok (a, st1) /\ k a st1 = Ok r.
Proof.
  unfold bind. destruct (m st) as [[a st1]| | |]; intros H; try discriminate.
  exists a, st1. split; [reflexivity | exact H].
Qed.

Lemma ret_ok {A} (a a' : A) st st' : ret a st = Ok (a', st') -> a = a' /\ st = st'.
Proof. unfold ret. intros H. inversion H. split; reflexivity. Qed.

Lemma ok_or_ok {A} (o : option A) e st a st' : ok_or o e st = Ok (a, st') -> st' = st.
Proof. destruct o; simpl; unfold ret, fail; intros H; inversion H; reflexivity. Qed.

Lemma take_definitions_state obj0 st o st1 :
  take_definitions obj0 st = Ok (o, st1) -> jsonref st1 = jsonref st /\ loads st1 = loads st.
Proof.
  unfold take_definitions. destruct (map_get obj0 "definitions") as [defs|].
  - destruct defs; try (intros H; inversion H; subst; split; reflexivity).
    destruct (definitions st); intros H; inversion H; subst; split; reflexivity.
  - intros H; inversion H; subst; split; reflexivity.
Qed.

Ltac bind_inv H :=
  let a := fresh "a" in let s := fresh "s" in let Hb := fresh "Hb" in
  apply bind_ok in H; destruct H as (a & s & Hb & H).

(** ** Keys of maps *)

Lemma map_get_keys (m : Map) (k : string) : map_get m k <> None <-> In k (map fst m).
Proof.
  induction m as [|[k0 v] t IH]; simpl.
  { split; [intros H; exfalso; apply H; reflexivity | intros []]. }
  destruct (String.eqb k k0) eqn:E.
  - apply String.eqb_eq in E. subst. split; [auto | discriminate].
  - apply String.eqb_neq in E. rewrite IH. split; [auto|]. intros [H|H]; [congruence | exact H].
Qed.

Lemma keys_map_remove (m : Map) (k k' : string) :
  In k' (map fst (map_remove m k)) <-> In k' (map fst m) /\ k' <> k.
Proof.
  induction m as [|[k0 v] t IH]; simpl; [tauto|].
  destruct (String.eqb k k0) eqn:E; simpl.
  - apply String.eqb_eq in E. subst. rewrite IH. intuition congruence.
  - apply String.eqb_neq in E. rewrite IH. intuition congruence.
Qed.

Lemma keys_sorted_insert (m : Map) (k k' : string) v :
  In k' (map fst (sorted_insert k v m)) <-> k' = k \/ In k' (map fst m).
Proof.
  induction m as [|[k0 v0] t IH]; simpl; [intuition congruence|].
  destruct (String.compare k k0); simpl; rewrite ?IH; intuition congruence.
Qed.

Lemma keys_map_insert (m : Map) (k k' : string) v :
  In k' (map fst (map_insert m k v)) <-> k' = k \/ In k' (map fst m).
Proof.
  unfold map_insert. rewrite keys_sorted_insert, keys_map_remove.
  destruct (String.eqb k' k) eqn:E;
    [apply String.eqb_eq in E | apply String.eqb_neq in E]; intuition.
Qed.

(** ** C6 *)

(** Every identifier handed to a loader in this session is in the cache, and
    none was handed over twice. *)
Definition loads_inv (st : Session) : Prop :=
  NoDup (loads st) /\ forall k, In k (loads st) -> In k (map fst (schema_cache (jsonref st))).

Lemma load_then_cache_inv http_get read_file u key st s st2 st3 :
  loads_inv st ->
  load_schema http_get read_file u key st = Ok (s, st2) ->
  cache_insert_absent key s st2 = Ok (tt, st3) ->
  loads_inv st3.
Proof.
  intros [Hnd Hin] Hl Hc.
  assert (Hafter : In key (map fst (schema_cache (jsonref st3))) /\
                   jsonref st3 = jsonref st2 \/
                   jsonref st3 = mkJsonRef (map_insert (schema_cache (jsonref st2)) key s)
                                           (reference_key (jsonref st2))).
  { unfold cache_insert_absent in Hc. unfold map_contains_key in Hc.
    destruct (map_get (schema_cache (jsonref st2)) key) eqn:E; inversion Hc; subst; simpl.
    - left. split; [|reflexivity]. apply map_get_keys. congruence.
    - right. reflexivity. }
  assert (Hl3 : loads st3 = loads st2) by
    (unfold cache_insert_absent in Hc; destruct (map_contains_key _ _);
     inversion Hc; reflexivity).
  assert (Hkey : In key (map fst (schema_cache (jsonref st3)))).
  { destruct Hafter as [[H _]|H]; [exact H|]. rewrite H. simpl.
    apply keys_map_insert. left. reflexivity. }
  assert (Hmono : forall k, In k (map fst (schema_cache (jsonref st2))) ->
                            In k (map fst (schema_cache (jsonref st3)))).
  { intros k Hk. destruct Hafter as [[_ H]|H]; rewrite H; [exact Hk|].
    simpl. apply keys_map_insert. right. exact Hk. }
  unfold load_schema in Hl.
  destruct (map_get (schema_cache (jsonref st)) key) eqn:Ec.
  - inversion Hl; subst. split; [rewrite Hl3; exact Hnd|].
    intros k Hk. rewrite Hl3 in Hk. apply Hmono. apply Hin. exact Hk.
  - assert (Hst2 : jsonref st2 = jsonref st /\ loads st2 = (loads st ++ [key])%list).
    { destruct (String.prefix "http" key);
        [| destruct (String.prefix "file" key)];
        [ destruct (http_get key) as [[|]|] | destruct (read_file (url_path u)) as [[|]|] | ];
        inversion Hl; subst; split; reflexivity. }
    destruct Hst2 as [Hj2 Hl2].
    assert (Hnot : ~ In key (loads st)).
    { intros Hk. apply Hin in Hk. apply map_get_keys in Hk. contradiction. }
    split.
    + rewrite Hl3, Hl2. apply NoDup_app; [exact Hnd | constructor; [intros []|constructor] |].
      intros x Hx1 [Hx2|[]]. subst. contradiction.
    + intros k Hk. rewrite Hl3, Hl2 in Hk. apply in_app_or in Hk as [Hk|[Hk|[]]].
      * apply Hmono. rewrite Hj2. apply Hin. exact Hk.
      * subst. exact Hkey.
Qed.

(** ** Invariants of successful runs

    [deref] changes its state in two places only: the ["definitions"]
    extraction and the load-then-cache of a reference's document.  A
    property of sessions that both keep holds after every successful run. *)
Section Preserve.
Variable http_get : string -> LoadFailure + Value.
Variable read_file : string -> LoadFailure + Value.
Variable P : Session -> Prop.
Hypothesis P_take : forall obj0 st o st1,
  P st -> take_definitions obj0 st = Ok (o, st1) -> P st1.
Hypothesis P_load : forall u key st s st2 st3,
  P st -> load_schema http_get read_file u key st = Ok (s, st2) ->
  cache_insert_absent key s st2 = Ok (tt, st3) -> P st3.

Lemma map_values_preserves (g : Value -> M Value) :
  (forall v st v' st', P st -> g v st = Ok (v', st') -> P st') ->
  forall m st m' st', P st -> map_values_M g m st = Ok (m', st') -> P st'.
Proof.
  intros Hg m. induction m as [|[k v] t IH]; intros st m' st' Hp H; simpl in H.
  - inversion H; subst. exact Hp.
  - bind_inv H. bind_inv H. apply ret_ok in H as [_ <-].
    eapply IH; [|exact Hb0]. eapply Hg; [exact Hp | exact Hb].
Qed.

Lemma deref_preserves fuel :
  forall v id used st v' st', P st ->
  deref http_get read_file fuel v id used st = Ok (v', st') -> P st'.
Proof.
  induction fuel as [|f IH]; intros v id used st v' st' Hp H; [discriminate|].
  cbn [deref] in H. bind_inv H.
  assert (Hs : P s).
  { destruct v as [| | | | l | obj0]; try (apply ret_ok in Hb as [_ <-]; exact Hp).
    bind_inv Hb. assert (Hp1 := P_take _ _ _ _ Hp Hb0).
    destruct (map_take a0 "$ref") as [[rv o2]|];
      [destruct rv | ]; try (apply ret_ok in Hb as [_ <-]; exact Hp1).
    bind_inv Hb. apply ok_or_ok in Hb1. subst.
    bind_inv Hb. apply ok_or_ok in Hb1. subst.
    bind_inv Hb. bind_inv Hb. repeat match goal with u : unit |- _ => destruct u end.
    assert (Hp2 := P_load _ _ _ _ _ _ Hp1 Hb1 Hb2).
    bind_inv Hb.
    assert (s4 = s3) as ->.
    { destruct (url_fragment a2); [eapply ok_or_ok; exact Hb3 | apply ret_ok in Hb3 as [_ ->]; reflexivity]. }
    destruct (existsb _ _); [apply ret_ok in Hb as [_ <-]; exact Hp2|].
    bind_inv Hb. bind_inv Hb.
    match goal with Hr : get_reference_key _ = _ |- _ =>
      unfold get_reference_key in Hr; inversion Hr; subst end.
    apply ret_ok in Hb as [_ <-]. eapply IH; [exact Hp2 | eassumption]. }
  destruct a as [v0|v0]; [apply ret_ok in H as [_ <-]; exact Hs|].
  destruct v0; try (apply ret_ok in H as [_ <-]; exact Hs).
  bind_inv H. apply ret_ok in H as [_ <-].
  eapply map_values_preserves; [| exact Hs | exact Hb0].
  intros v1 st1 v1' st1' Hp1 H1. eapply IH; [exact Hp1 | exact H1].
Qed.

End Preserve.

Lemma deref_loads_inv http_get read_file fuel v id used st v' st' :
  loads_inv st ->
  deref http_get read_file fuel v id used st = Ok (v', st') -> loads_inv st'.
Proof.
  apply deref_preserves.
  - intros obj0 st0 o st1 [Hnd Hin] Ht. apply take_definitions_state in Ht as [Hj Hl].
    split; [rewrite Hl; exact Hnd|]. intros k. rewrite Hl, Hj. apply Hin.
  - intros u key st0 s st2 st3 Hp Hl Hc. eapply load_then_cache_inv; eauto.
Qed.

(** In a resolution session that succeeds, the loaders are called at
    most once per fragment-stripped identifier: the log of identifiers
    handed to a loader has no duplicates. *)
Theorem deref_value_loads_once http_get read_file cwd fuel jr v :
  match deref_value http_get read_file cwd fuel jr v with
  | Ok (_, st') => NoDup (loads st')
  | _ => True
  end.
Proof.
  destruct cwd as [dir|]; [|exact I]. unfold deref_value.
  destruct (deref _ _ _ _ _ _ _) as [[v' st']| | |] eqn:E; try exact I.
  apply deref_loads_inv in E as [Hnd _]; [exact Hnd|].
  split; [constructor | intros k []].
Qed.

(** Scenario C: two references into the same external document. *)
Definition remote_doc : Value :=
  obj [("x", obj [("type", VString "string")]); ("y", obj [("type", VString "integer")])].
Definition remote_http : string -> LoadFailure + Value :=
  fun u => if String.eqb u "http://example.com/s.json" then inr remote_doc else inl IoFailure.
Definition two_refs_doc : Value :=
  obj [("a", obj [("$ref", VString "http://example.com/s.json#/x")]);
       ("b", obj [("$ref", VString "http://example.com/s.json#/y")])].

Example two_refs_one_load :
  match deref_value remote_http no_file (Some "/work") 10 JsonRef_new two_refs_doc with
  | Ok (v, st') => v = obj [("a", obj [("type", VString "string")]);
                            ("b", obj [("type", VString "integer")])] /\
                   loads st' = ["http://example.com/s.json"]
  | _ => False
  end.
Proof. vm_compute. split; reflexivity. Qed.

(** ** C7 *)

(** The [reference_key] is never changed by [deref]. *)
Lemma deref_reference_key http_get read_file fuel v id used st v' st' :
  deref http_get read_file fuel v id used st = Ok (v', st') ->
  reference_key (jsonref st') = reference_key (jsonref st).
Proof.
  intros H.
  refine (deref_preserves http_get read_file
            (fun s => reference_key (jsonref s) = reference_key (jsonref st))
            _ _ fuel v id used st v' st' eq_refl H).
  - intros obj0 s o s1 Hs Ht. apply take_definitions_state in Ht as [Hj _]. congruence.
  - intros u key s sch s2 s3 Hs Hl Hc.
    assert (jsonref s2 = jsonref s).
    { unfold load_schema in Hl. destruct (map_get _ key).
      - inversion Hl; reflexivity.
      - destruct (String.prefix "http" key);
          [| destruct (String.prefix "file" key)];
          [ destruct (http_get key) as [[|]|] | destruct (read_file (url_path u)) as [[|]|] | ];
          inversion Hl; reflexivity. }
    unfold cache_insert_absent in Hc. destruct (map_contains_key _ _);
      inversion Hc; subst; simpl; congruence.
Qed.

Lemma map_values_keys (g : Value -> M Value) m st m' st' :
  map_values_M g m st = Ok (m', st') -> map fst m' = map fst m.
Proof.
  revert st m' st'. induction m as [|[k v] t IH]; intros st m' st' H; simpl in H.
  - inversion H; reflexivity.
  - bind_inv H. bind_inv H. apply ret_ok in H as [<- _]. simpl. f_equal. eapply IH. eassumption.
Qed.

(** A node with neither a ["$ref"] nor a ["definitions"] key. *)
Definition top_clean (v : Value) : Prop :=
  match v with
  | VObject m => ~ In "$ref" (map fst m) /\ ~ In "definitions" (map fst m)
  | _ => True
  end.

Lemma take_definitions_removes obj0 st o st1 :
  take_definitions obj0 st = Ok (o, st1) -> ~ In "definitions" (map fst o).
Proof.
  unfold take_definitions. destruct (map_get obj0 "definitions") as [defs|] eqn:E.
  - assert (Hr : ~ In "definitions" (map fst (map_remove obj0 "definitions"))).
    { intros Hin. apply keys_map_remove in Hin as [_ Hne]. apply Hne. reflexivity. }
    destruct defs; try (intros H; inversion H; subst; exact Hr).
    destruct (definitions st); intros H; inversion H; subst; exact Hr.
  - intros H. inversion H; subst. intros Hin. apply map_get_keys in Hin. contradiction.
Qed.

(** A [reference_key] that is neither ["$ref"] nor ["definitions"]. *)
Definition rk_ok (r : option string) : Prop :=
  match r with Some k => k <> "$ref" /\ k <> "definitions" | None => True end.

Lemma load_schema_jsonref http_get read_file u key st v st2 :
  load_schema http_get read_file u key st = Ok (v, st2) -> jsonref st2 = jsonref st.
Proof.
  unfold load_schema. destruct (map_get _ key).
  - intros H; inversion H; reflexivity.
  - destruct (String.prefix "http" key);
      [| destruct (String.prefix "file" key)];
      [ destruct (http_get key) as [[|]|] | destruct (read_file (url_path u)) as [[|]|] | ];
      intros H; inversion H; reflexivity.
Qed.

Lemma cache_insert_absent_rk key v st x st2 :
  cache_insert_absent key v st = Ok (x, st2) ->
  reference_key (jsonref st2) = reference_key (jsonref st).
Proof.
  unfold cache_insert_absent. destruct (map_contains_key _ _); intros H; inversion H; reflexivity.
Qed.

Lemma not_in_keys_remove (m : Map) k k' :
  ~ In k' (map fst m) -> ~ In k' (map fst (map_remove m k)).
Proof. intros H Hin. apply keys_map_remove in Hin as [Hin _]. contradiction. Qed.

Lemma removed_key_absent (m : Map) k : ~ In k (map fst (map_remove m k)).
Proof. intros Hin. apply keys_map_remove in Hin as [_ Hne]. apply Hne. reflexivity. Qed.

(** Every node [deref] returns has lost its ["$ref"] and ["definitions"]
    keys; and unless a cycle was cut (which needs a non-empty [used_refs])
    or the node is not an object, the node's values are the results of the
    recursive calls of the descent (lines 407-411). *)
Lemma deref_shape http_get read_file fuel :
  forall v id used st v' st',
  rk_ok (reference_key (jsonref st)) ->
  deref http_get read_file fuel v id used st = Ok (v', st') ->
  top_clean v' /\
  (used <> [] \/ is_object v' = false \/
   exists m s m', v' = VObject m' /\ reference_key (jsonref s) = reference_key (jsonref st) /\
     map_values_M (fun c => deref http_get read_file (pred fuel) c (node_id v id) used) m s
     = Ok (m', st')).
Proof.
  induction fuel as [|f IH]; intros v id used st v' st' Hrk H; [discriminate|].
  cbn [deref] in H. apply bind_ok in H as (step & s & Hstep & H).
  assert (Hs : top_clean (match step with Stop x | Continue x => x end) /\
               (match step with Stop _ => used <> [] | Continue _ => True end) /\
               reference_key (jsonref s) = reference_key (jsonref st)).
  { destruct v as [| | | | l | obj0];
      try (apply ret_ok in Hstep as [<- <-]; repeat split; exact I).
    apply bind_ok in Hstep as (o & s0 & Htake & Hstep).
    assert (Hnd := take_definitions_removes _ _ _ _ Htake).
    apply take_definitions_state in Htake as [Hj0 _].
    unfold map_take in Hstep. destruct (map_get o "$ref") as [rv|] eqn:Eref.
    2:{ apply ret_ok in Hstep as [<- <-]. split; [|split; [exact I | congruence]].
        split; [|exact Hnd]. intros Hin. apply map_get_keys in Hin. contradiction. }
    assert (Hclean2 : top_clean (VObject (map_remove o "$ref"))).
    { split; [apply removed_key_absent | apply not_in_keys_remove; exact Hnd]. }
    destruct rv as [| | | ref_string | |];
      try (apply ret_ok in Hstep as [<- <-]; split; [exact Hclean2 | split; [exact I | congruence]]).
    apply bind_ok in Hstep as (id_url & s1 & H1 & Hstep). apply ok_or_ok in H1. subst s1.
    apply bind_ok in Hstep as (ref_url & s1 & H1 & Hstep). apply ok_or_ok in H1. subst s1.
    apply bind_ok in Hstep as (schema & s2 & Hload & Hstep).
    apply bind_ok in Hstep as (u & s3 & Hins & Hstep).
    assert (Hrk3 : reference_key (jsonref s3) = reference_key (jsonref st)).
    { rewrite (cache_insert_absent_rk _ _ _ _ _ Hins), (load_schema_jsonref _ _ _ _ _ _ _ Hload).
      congruence. }
    apply bind_ok in Hstep as (schema1 & s4 & Hfrag & Hstep).
    assert (s4 = s3) as ->.
    { destruct (url_fragment ref_url);
        [eapply ok_or_ok; exact Hfrag | apply ret_ok in Hfrag as [_ ->]; reflexivity]. }
    destruct (existsb (String.eqb (url_to_string ref_url)) used) eqn:Ex.
    { apply ret_ok in Hstep as [<- <-]. split; [exact Hclean2|]. split; [|exact Hrk3].
      intros ->. discriminate. }
    apply bind_ok in Hstep as (schema2 & s5 & Hrec & Hstep).
    apply bind_ok in Hstep as (rk & s6 & Hget & Hstep).
    unfold get_reference_key in Hget. inversion Hget; subst rk s6.
    apply ret_ok in Hstep as [<- <-].
    assert (Hrk5 := deref_reference_key _ _ _ _ _ _ _ _ _ Hrec).
    destruct (IH _ _ _ _ _ _ ltac:(rewrite Hrk3; exact Hrk) Hrec) as [Htc _].
    split; [|split; [exact I | congruence]].
    rewrite Hrk5, Hrk3.
    destruct (reference_key (jsonref st)) as [k|] eqn:Ek; [|exact Htc].
    destruct schema2 as [| | | | | nm]; try exact I.
    destruct Hrk as [Hk1 Hk2]. destruct Htc as [Hn1 Hn2].
    split; intros Hin; apply keys_map_insert in Hin as [Heq|Hin]; try contradiction; congruence. }
  destruct Hs as (Htc & Hused & Hrs).
  destruct step as [v0|v0].
  - apply ret_ok in H as [<- <-]. split; [exact Htc | left; exact Hused].
  - destruct v0 as [| | | | l | m];
      try (apply ret_ok in H as [<- <-]; split; [exact Htc | right; left; reflexivity]).
    apply bind_ok in H as (m' & s' & Hmv & H). apply ret_ok in H as [<- <-].
    split.
    + simpl. rewrite (map_values_keys _ _ _ _ _ Hmv). exact Htc.
    + right. right. exists m, s, m'. split; [reflexivity|]. split; [exact Hrs | exact Hmv].
Qed.

(** No ["$ref"] and no ["definitions"] key in any object reached through
    objects. *)
Fixpoint clean (v : Value) : bool :=
  match v with
  | VObject m =>
      forallb (fun kv => negb (String.eqb (fst kv) "$ref") &&
                         negb (String.eqb (fst kv) "definitions") && clean (snd kv)) m
  | _ => true
  end.

Lemma clean_obj (m : Map) :
  top_clean (VObject m) -> Forall (fun kv => clean (snd kv) = true) m -> clean (VObject m) = true.
Proof.
  induction m as [|[k v] t IH]; intros [H1 H2] Hf; [reflexivity|].
  inversion Hf as [|? ? Hv Ht]; subst. cbn [snd] in Hv.
  cbn [clean forallb fst snd]. cbn [clean] in IH. rewrite IH.
  - rewrite Hv. destruct (String.eqb k "$ref") eqn:E1.
    { apply String.eqb_eq in E1. subst. exfalso. apply H1. left. reflexivity. }
    destruct (String.eqb k "definitions") eqn:E2; [|reflexivity].
    apply String.eqb_eq in E2. subst. exfalso. apply H2. left. reflexivity.
  - split; intros Hin; [apply H1 | apply H2]; right; exact Hin.
  - exact Ht.
Qed.

Section Clean.
Variable http_get : string -> LoadFailure + Value.
Variable read_file : string -> LoadFailure + Value.

Lemma map_values_clean f nid :
  (forall c s c' s', rk_ok (reference_key (jsonref s)) ->
     deref http_get read_file f c nid [] s = Ok (c', s') -> clean c' = true) ->
  forall m s m' s', rk_ok (reference_key (jsonref s)) ->
  map_values_M (fun c => deref http_get read_file f c nid []) m s = Ok (m', s') ->
  Forall (fun kv => clean (snd kv) = true) m'.
Proof.
  intros IH m. induction m as [|[k v] t IHm]; intros s m' s' Hrk H; simpl in H.
  - inversion H; subst. constructor.
  - apply bind_ok in H as (v' & s1 & Hv & H).
    apply bind_ok in H as (t' & s2 & Ht & H). apply ret_ok in H as [<- _].
    constructor; [eapply IH; eassumption|].
    eapply IHm; [|exact Ht]. rewrite (deref_reference_key _ _ _ _ _ _ _ _ _ Hv). exact Hrk.
Qed.

(** A run started with an empty [used_refs] list returns a tree with no
    ["$ref"] and no ["definitions"] key in any object reached through
    objects. *)
Lemma deref_clean fuel :
  forall v id st v' st', rk_ok (reference_key (jsonref st)) ->
  deref http_get read_file fuel v id [] st = Ok (v', st') -> clean v' = true.
Proof.
  induction fuel as [|f IH]; intros v id st v' st' Hrk H; [discriminate|].
  destruct (deref_shape http_get read_file (S f) v id [] st v' st' Hrk H)
    as [Htc [Hne | [Hno | (m & s & m' & -> & Hrs & Hmv)]]].
  - exfalso. apply Hne. reflexivity.
  - destruct v'; try reflexivity; discriminate.
  - apply clean_obj; [exact Htc|].
    eapply map_values_clean; [| rewrite Hrs; exact Hrk | exact Hmv].
    intros c s0 c' s0' Hr0 Hc. eapply IH; eassumption.
Qed.

End Clean.

(** The accumulator is the merge, in order, of the ["definitions"] maps
    taken out so far. *)
Definition acc_inv (st : Session) : Prop :=
  definitions st = VObject (fold_left merge_defs (defs_log st) []).

Lemma deref_acc_inv http_get read_file fuel v id used st v' st' :
  acc_inv st -> deref http_get read_file fuel v id used st = Ok (v', st') -> acc_inv st'.
Proof.
  apply deref_preserves.
  - intros obj0 s o s1 Hp Ht. unfold take_definitions in Ht.
    destruct (map_get obj0 "definitions") as [defs|];
      [|inversion Ht; subst; exact Hp].
    destruct defs; try (inversion Ht; subst; exact Hp).
    unfold acc_inv in Hp. rewrite Hp in Ht. inversion Ht; subst.
    unfold acc_inv. simpl. rewrite fold_left_app. reflexivity.
  - intros u key s sch s2 s3 Hp Hl Hc.
    assert (definitions s2 = definitions s /\ defs_log s2 = defs_log s) as [Hd Hg].
    { unfold load_schema in Hl. destruct (map_get _ key).
      - inversion Hl; subst; split; reflexivity.
      - destruct (String.prefix "http" key);
          [| destruct (String.prefix "file" key)];
          [ destruct (http_get key) as [[|]|] | destruct (read_file (url_path u)) as [[|]|] | ];
          inversion Hl; subst; split; reflexivity. }
    unfold cache_insert_absent in Hc. unfold acc_inv.
    destruct (map_contains_key _ _); inversion Hc; subst; simpl; rewrite Hd, Hg; exact Hp.
Qed.

Lemma map_get_sorted_insert_same (m : Map) k x :
  map_get m k = None -> map_get (sorted_insert k x m) k = Some x.
Proof.
  induction m as [|[k0 v0] t IH]; intros H; simpl.
  - rewrite String.eqb_refl. reflexivity.
  - simpl in H. destruct (String.eqb k k0) eqn:E; [discriminate|].
    destruct (String.compare k k0); simpl;
      rewrite ?String.eqb_refl, ?E; try reflexivity; apply IH; exact H.
Qed.

Lemma map_get_insert_same (m : Map) k x : map_get (map_insert m k x) k = Some x.
Proof. apply map_get_sorted_insert_same. apply map_get_remove_same. Qed.

Lemma map_remove_sorted_insert (m : Map) k x :
  map_remove (sorted_insert k x m) k = map_remove m k.
Proof.
  induction m as [|[k0 v0] t IH]; simpl.
  - unfold map_remove. simpl. rewrite String.eqb_refl. reflexivity.
  - destruct (String.compare k k0); unfold map_remove in *; simpl;
      rewrite ?String.eqb_refl; simpl; try reflexivity;
      destruct (String.eqb k k0); simpl; rewrite ?IH; reflexivity.
Qed.

Lemma map_remove_idem (m : Map) k : map_remove (map_remove m k) k = map_remove m k.
Proof.
  induction m as [|[k0 v0] t IH]; [reflexivity|]. unfold map_remove in *. simpl.
  destruct (String.eqb k k0) eqn:E; simpl; rewrite ?E; simpl; rewrite IH; reflexivity.
Qed.

(** C7: when [deref_file] returns, its root is an object whose
    ["definitions"] entry is the final accumulator; the accumulator is the
    merge, in traversal order and with later entries overwriting earlier
    ones, of every ["definitions"] object the resolution took out of a node;
    and no other object of the result reached through objects keeps a
    ["definitions"] key (nor a ["$ref"]).  The [reference_key], if set, is
    neither ["$ref"] nor ["definitions"]. *)
Theorem deref_file_definitions http_get read_file canonicalize fuel jr file_path v st :
  rk_ok (reference_key jr) ->
  deref_file http_get read_file canonicalize fuel jr file_path = Ok (v, st) ->
  exists m, v = VObject m /\
    map_get m "definitions" = Some (definitions st) /\
    definitions st = VObject (fold_left merge_defs (defs_log st) []) /\
    clean (VObject (map_remove m "definitions")) = true.
Proof.
  intros Hrk H. unfold deref_file in H.
  destruct (read_file file_path) as [[|]|value]; try discriminate.
  destruct (canonicalize file_path) as [absolute_path|]; try discriminate.
  destruct (deref http_get read_file fuel value ("file://" ++ absolute_path) []
              (new_session (mkJsonRef (map_insert (schema_cache jr)
                                         ("file://" ++ absolute_path) value)
                                      (reference_key jr)))) as [[v0 st0]| | |] eqn:E;
    try discriminate.
  destruct v0 as [| | | | | m0]; try discriminate.
  inversion H; subst. clear H.
  exists (map_insert m0 "definitions" (definitions st)). split; [reflexivity|].
  split; [apply map_get_insert_same|].
  split.
  - eapply deref_acc_inv; [|exact E]. reflexivity.
  - assert (Hc : clean (VObject m0) = true)
      by (eapply deref_clean; [|exact E]; exact Hrk).
    unfold map_insert. rewrite map_remove_sorted_insert, map_remove_idem.
    apply forallb_map_remove. exact Hc.
Qed.

(** Scenario D: a root file and a file it references both hold
    ["definitions"]; the root of the result holds their union, the key
    ["c"] taken from the referenced file, processed later. *)
Definition base_json : Value :=
  obj [("definitions", obj [("a", obj [("type", VString "string")]);
                            ("c", obj [("title", VString "root")])]);
       ("properties", obj [("p", obj [("$ref", VString "other.json")])])].
Definition other_json : Value :=
  obj [("definitions", obj [("b", obj [("type", VString "integer")]);
                            ("c", obj [("title", VString "other")])]);
       ("title", VString "o")].
Definition two_files : string -> LoadFailure + Value :=
  fun p => if String.eqb p "base.json" then inr base_json
           else if String.eqb p "/work/other.json" then inr other_json
           else inl IoFailure.

Definition scenarioD_expected : Value :=
  obj [("definitions", obj [("a", obj [("type", VString "string")]);
                            ("b", obj [("type", VString "integer")]);
                            ("c", obj [("title", VString "other")])]);
       ("properties", obj [("p", obj [("title", VString "o")])])].

Lemma deref_file_definitions_witness :
  result_value (deref_file no_http two_files canon_work 10 JsonRef_new "base.json")
  = Some scenarioD_expected /\
  exists m, VObject m = scenarioD_expected /\
    map_get m "definitions" =
      Some (obj [("a", obj [("type", VString "string")]);
                 ("b", obj [("type", VString "integer")]);
                 ("c", obj [("title", VString "other")])]) /\
    clean (VObject (map_remove m "definitions")) = true.
Proof.
  split; [vm_compute; reflexivity|].
  destruct (deref_file no_http two_files canon_work 10 JsonRef_new "base.json")
    as [[v st]| | |] eqn:E; [|vm_compute in E; discriminate ..].
  destruct (deref_file_definitions no_http two_files canon_work 10 JsonRef_new "base.json" v st
              I E) as (m & -> & Hget & Hacc & Hclean).
  vm_compute in E. inversion E; subst.
  eexists. split; [reflexivity|]. split; [exact Hget | exact Hclean].
Defined.

(** * The [Remove] trait (lines 77-160)

    [impl Remove for Value] splits the pointer at ["/"] and drops the first
    piece; the free function [remove] walks the remaining fields.  A field
    in the middle is looked up with [pointer_mut("/" + field)], which
    unescapes ["~1"] and ["~0"] and reads array indexes with serde_json's
    [parse_index]; the last field is used as it is, by [Map::remove] on an
    object and by [usize::from_str] on an array. *)

(** [str::parse::<usize>] on a 64-bit target: an optional ["+"], then at
    least one decimal digit, and a value below [2^64]. *)
Fixpoint digits_N (s : string) (acc : N) : option N :=
  match s with
  | EmptyString => Some acc
  | String c t =>
      if is_digit c then digits_N t (acc * 10 + N.of_nat (nat_of_ascii c - 48))%N
      else None
  end.

Definition parse_usize (s : string) : option N :=
  let digits := match s with
                | String c t => if Ascii.eqb c "+" then t else s
                | EmptyString => s
                end in
  match digits with
  | EmptyString => None
  | _ => match digits_N digits 0 with
         | Some n => if N.ltb n (2 ^ 64) then Some n else None
         | None => None
         end
  end.

(** The two [io::Error]s of kind [InvalidInput] that [remove] builds, with
    the data their messages print. *)
Inductive RemoveError : Type :=
| ParseIntError (field : string) (json_value : Value)
| IndexOutOfRange (index len : N) (json_value : Value).

(** [Vec::remove] and the write through a [&mut] element of a vector or of
    a map. *)
Fixpoint remove_nth {A} (l : list A) (i : nat) : list A :=
  match l, i with
  | [], _ => []
  | _ :: t, O => t
  | x :: t, S j => x :: remove_nth t j
  end.

Fixpoint list_set {A} (l : list A) (i : nat) (x : A) : list A :=
  match l, i with
  | [], _ => []
  | _ :: t, O => x :: t
  | y :: t, S j => y :: list_set t j x
  end.

Fixpoint map_set (m : Map) (k : string) (x : Value) : Map :=
  match m with
  | [] => []
  | (k', v) :: t => if String.eqb k k' then (k', x) :: t else (k', v) :: map_set t k x
  end.

(** The free function [remove] (lines 109-160).  It returns the removed
    value and the value after the removal, or the error. *)
Fixpoint remove (json_value : Value) (fields : list string) {struct fields}
  : RemoveError + (option Value * Value) :=
  match fields with
  | [] => inr (None, json_value)
  | field :: fields =>
      if String.eqb field "" then inr (None, json_value)
      else
        match fields with
        | [] =>
            match json_value with
            | VArray vec =>
                match parse_usize field with
                | None => inl (ParseIntError field json_value)
                | Some index =>
                    let len := N.of_nat (length vec) in
                    if N.leb len index then inl (IndexOutOfRange index len json_value)
                    else inr (nth_error vec (N.to_nat index),
                              VArray (remove_nth vec (N.to_nat index)))
                end
            | VObject map => inr (map_get map field, VObject (map_remove map field))
            | _ => inr (None, json_value)
            end
        | _ :: _ =>
            let token := unescape_token field in
            match json_value with
            | VObject map =>
                match map_get map token with
                | Some json_targeted =>
                    match remove json_targeted fields with
                    | inl e => inl e
                    | inr (r, json_targeted') => inr (r, VObject (map_set map token json_targeted'))
                    end
                | None => inr (None, json_value)
                end
            | VArray list =>
                match parse_index token with
                | Some i =>
                    match nth_error list i with
                    | Some json_targeted =>
                        match remove json_targeted fields with
                        | inl e => inl e
                        | inr (r, json_targeted') => inr (r, VArray (list_set list i json_targeted'))
                        end
                    | None => inr (None, json_value)
                    end
                | None => inr (None, json_value)
                end
            | _ => inr (None, json_value)
            end
        end
  end.

(** [<Value as Remove>::remove] (lines 102-106). *)
Definition value_remove (json_value : Value) (json_pointer : string)
  : RemoveError + (option Value * Value) :=
  remove json_value (tl (split_on "/" json_pointer)).

(** The two examples of the trait's documentation. *)
Example remove_doc_array :
  value_remove (obj [("my_table", VArray [VString "a"; VString "b"; VString "c"])]) "/my_table/0"
  = inr (Some (VString "a"), obj [("my_table", VArray [VString "b"; VString "c"])]).
Proof. reflexivity. Qed.

Example remove_doc_object :
  value_remove (obj [("field1.0", obj [("field1.1", VString "value1.1");
                                       ("field1.2", VString "value1.2")]);
                     ("field2.0", VString "value2.0")]) "/field1.0/field1.2"
  = inr (Some (VString "value1.2"),
         obj [("field1.0", obj [("field1.1", VString "value1.1")]);
              ("field2.0", VString "value2.0")]).
Proof. reflexivity. Qed.

(** ** Pointers built from fields *)

Definition no_slash (t : string) : bool := str_all (fun c => negb (Ascii.eqb c "/")) t.

(** A field that survives [split("/")] as it is, and that [remove] does not
    stop at. *)
Definition pointer_field (t : string) : bool := negb (String.eqb t "") && no_slash t.

(** ["/" + f1 + "/" + f2 ...]. *)
Definition ptr_of (fields : list string) : string :=
  fold_right (fun f acc => "/" ++ f ++ acc) "" fields.

(** [pointer_mut] along raw fields: each is unescaped, then looked up. *)
Definition pointer_tokens (v : Value) (fields : list string) : option Value :=
  fold_left pointer_step (map unescape_token fields) (Some v).

(** The value after the write through the [&mut] found by [pointer_tokens]. *)
Fixpoint set_at (v : Value) (fields : list string) (x : Value) : Value :=
  match fields with
  | [] => x
  | f :: fs =>
      let token := unescape_token f in
      match v with
      | VObject m =>
          match map_get m token with
          | Some c => VObject (map_set m token (set_at c fs x))
          | None => v
          end
      | VArray l =>
          match parse_index token with
          | Some i =>
              match nth_error l i with
              | Some c => VArray (list_set l i (set_at c fs x))
              | None => v
              end
          | None => v
          end
      | _ => v
      end
  end.

Lemma split_on_not_nil (c : ascii) (s : string) : split_on c s <> [].
Proof.
  destruct s as [|x t]; simpl; [discriminate|].
  destruct (Ascii.eqb x c); [discriminate|]. destruct (split_on c t); discriminate.
Qed.

Lemma append_empty_r (s : string) : s ++ "" = s.
Proof. induction s as [|c t IH]; simpl; [reflexivity | rewrite IH; reflexivity]. Qed.

Lemma split_on_prefix (k t : string) :
  no_slash k = true ->
  split_on "/" (k ++ t) = match split_on "/" t with
                          | p :: ps => (k ++ p) :: ps
                          | [] => [k]
                          end.
Proof.
  induction k as [|c k IH]; intros Hk.
  - simpl. destruct (split_on "/" t) eqn:E; [exfalso; exact (split_on_not_nil _ _ E) | reflexivity].
  - cbn [no_slash str_all] in Hk. unfold no_slash in IH.
    apply andb_true_iff in Hk as [Hc Hk]. apply negb_true_iff in Hc.
    cbn [append split_on]. rewrite Hc, (IH Hk).
    destruct (split_on "/" t); reflexivity.
Qed.

Lemma split_on_ptr_of (fields : list string) :
  forallb no_slash fields = true -> split_on "/" (ptr_of fields) = "" :: fields.
Proof.
  induction fields as [|f fs IH]; intros H; [reflexivity|].
  simpl in H. apply andb_true_iff in H as [Hf Hfs].
  cbn [ptr_of fold_right]. fold (ptr_of fs).
  change ("/" ++ f ++ ptr_of fs) with (String "/" (f ++ ptr_of fs)).
  cbn [split_on]. rewrite (split_on_prefix _ _ Hf), (IH Hfs), append_empty_r.
  reflexivity.
Qed.

Lemma pointer_ptr_of (v : Value) (fields : list string) :
  forallb no_slash fields = true -> pointer v (ptr_of fields) = pointer_tokens v fields.
Proof.
  intros H. destruct fields as [|f fs]; [reflexivity|].
  unfold pointer. rewrite (split_on_ptr_of _ H).
  change (ptr_of (f :: fs)) with (String "/" (f ++ ptr_of fs)).
  assert (Hp : String.prefix "/" (String "/" (f ++ ptr_of fs)) = true)
    by (destruct (f ++ ptr_of fs); reflexivity).
  rewrite Hp. reflexivity.
Qed.

Lemma value_remove_ptr_of (v : Value) (fields : list string) :
  forallb no_slash fields = true -> value_remove v (ptr_of fields) = remove v fields.
Proof. intros H. unfold value_remove. rewrite (split_on_ptr_of _ H). reflexivity. Qed.

Lemma pointer_field_split (fields : list string) :
  forallb pointer_field fields = true ->
  forallb no_slash fields = true /\ Forall (fun f => f <> "") fields.
Proof.
  induction fields as [|f fs IH]; intros H; [split; [reflexivity | constructor]|].
  simpl in H. apply andb_true_iff in H as [Hf Hfs]. unfold pointer_field in Hf.
  apply andb_true_iff in Hf as [Hne Hs]. apply negb_true_iff, String.eqb_neq in Hne.
  destruct (IH Hfs) as [H1 H2]. simpl. rewrite Hs, H1. split; [reflexivity | constructor; assumption].
Qed.

Lemma fold_pointer_none (ts : list string) : fold_left pointer_step ts None = None.
Proof. induction ts; simpl; auto. Qed.

Lemma pointer_tokens_cons (v : Value) (f : string) (fs : list string) :
  pointer_tokens v (f :: fs) =
  match pointer_step (Some v) (unescape_token f) with
  | Some c => pointer_tokens c fs
  | None => None
  end.
Proof.
  unfold pointer_tokens. cbn [map fold_left].
  destruct (pointer_step (Some v) (unescape_token f)); [reflexivity|].
  apply fold_pointer_none.
Qed.

Lemma map_set_get_same (m : Map) (k : string) (x : Value) :
  map_get m k <> None -> map_get (map_set m k x) k = Some x.
Proof.
  induction m as [|[k' v] t IH]; simpl; intros H; [congruence|].
  destruct (String.eqb k k') eqn:E; simpl; rewrite E; [reflexivity | auto].
Qed.

Lemma map_set_id (m : Map) (k : string) (x : Value) :
  map_get m k = Some x -> map_set m k x = m.
Proof.
  induction m as [|[k' v] t IH]; simpl; intros H; [reflexivity|].
  destruct (String.eqb k k'); [congruence | rewrite IH by exact H; reflexivity].
Qed.

Lemma list_set_nth {A} (l : list A) (i : nat) (x : A) :
  nth_error l i <> None -> nth_error (list_set l i x) i = Some x.
Proof.
  revert i. induction l as [|y t IH]; intros [|i] H; simpl in *; auto; congruence.
Qed.

Lemma list_set_id {A} (l : list A) (i : nat) (x : A) :
  nth_error l i = Some x -> list_set l i x = l.
Proof.
  revert i. induction l as [|y t IH]; intros [|i] H; simpl in *; try congruence.
  rewrite IH by exact H. reflexivity.
Qed.

Lemma remove_descend (pre : list string) (k : string) :
  Forall (fun f => f <> "") pre ->
  forall v p, pointer_tokens v pre = Some p ->
  remove v (pre ++ [k]) = match remove p [k] with
                          | inl e => inl e
                          | inr (r, p') => inr (r, set_at v pre p')
                          end.
Proof.
  induction pre as [|f fs IH]; intros Hne v p Hp.
  - unfold pointer_tokens in Hp. simpl in Hp. inversion Hp; subst.
    change ([] ++ [k])%list with [k]. cbn [set_at].
    destruct (remove p [k]) as [e|[r p']]; reflexivity.
  - inversion Hne as [|? ? Hf Hfs]; subst.
    remember (remove p [k]) as R eqn:HR.
    rewrite pointer_tokens_cons in Hp.
    apply String.eqb_neq in Hf.
    assert (Hcons : exists a rest, (fs ++ [k])%list = a :: rest)
      by (destruct fs; eexists _, _; reflexivity).
    destruct Hcons as (a & rest & Hr).
    cbn [app remove]. rewrite Hf, Hr. rewrite <- Hr.
    destruct v as [| | | | l | m]; simpl in Hp; try discriminate.
    + cbn [set_at]. destruct (parse_index (unescape_token f)) as [i|]; [|discriminate].
      destruct (nth_error l i) as [c|]; [|discriminate].
      rewrite (IH Hfs c p Hp), <- HR. destruct R as [e|[r p']]; reflexivity.
    + cbn [set_at]. destruct (map_get m (unescape_token f)) as [c|]; [|discriminate].
      rewrite (IH Hfs c p Hp), <- HR. destruct R as [e|[r p']]; reflexivity.
Qed.

Lemma pointer_set_at (pre : list string) :
  forall v p x, pointer_tokens v pre = Some p -> pointer_tokens (set_at v pre x) pre = Some x.
Proof.
  induction pre as [|f fs IH]; intros v p x Hp.
  - reflexivity.
  - rewrite pointer_tokens_cons in Hp |- *.
    destruct v as [| | | | l | m]; simpl in Hp; try discriminate; cbn [set_at].
    + destruct (parse_index (unescape_token f)) as [i|] eqn:Ei; [|discriminate].
      destruct (nth_error l i) as [c|] eqn:Ec; [|discriminate].
      simpl. rewrite Ei, list_set_nth by congruence. eapply IH; exact Hp.
    + destruct (map_get m (unescape_token f)) as [c|] eqn:Ec; [|discriminate].
      simpl. rewrite map_set_get_same by congruence. eapply IH; exact Hp.
Qed.

Lemma remove_missing (pre : list string) (k : string) :
  Forall (fun f => f <> "") pre ->
  forall v, pointer_tokens v pre = None -> remove v (pre ++ [k]) = inr (None, v).
Proof.
  induction pre as [|f fs IH]; intros Hne v Hp; [discriminate|].
  inversion Hne as [|? ? Hf Hfs]; subst.
  rewrite pointer_tokens_cons in Hp. apply String.eqb_neq in Hf.
  assert (Hcons : exists a rest, (fs ++ [k])%list = a :: rest)
    by (destruct fs; eexists _, _; reflexivity).
  destruct Hcons as (a & rest & Hr).
  cbn [app remove]. rewrite Hf, Hr. rewrite <- Hr.
  destruct v as [| | | | l | m]; simpl in Hp; try reflexivity.
  - destruct (parse_index (unescape_token f)) as [i|]; [|reflexivity].
    destruct (nth_error l i) as [c|] eqn:Ec; [|reflexivity].
    rewrite (IH Hfs c Hp), (list_set_id _ _ _ Ec). reflexivity.
  - destruct (map_get m (unescape_token f)) as [c|] eqn:Ec; [|reflexivity].
    rewrite (IH Hfs c Hp), (map_set_id _ _ _ Ec). reflexivity.
Qed.

(** One intermediate step of [remove]: the [pointer_mut] branch. *)
Lemma remove_step (v : Value) (f a : string) (rest : list string) :
  remove v (f :: a :: rest) =
  if String.eqb f "" then inr (None, v)
  else
    let token := unescape_token f in
    match v with
    | VObject map =>
        match map_get map token with
        | Some c =>
            match remove c (a :: rest) with
            | inl e => inl e
            | inr (r, c') => inr (r, VObject (map_set map token c'))
            end
        | None => inr (None, v)
        end
    | VArray list =>
        match parse_index token with
        | Some i =>
            match nth_error list i with
            | Some c =>
                match remove c (a :: rest) with
                | inl e => inl e
                | inr (r, c') => inr (r, VArray (list_set list i c'))
                end
            | None => inr (None, v)
            end
        | None => inr (None, v)
        end
    | _ => inr (None, v)
    end.
Proof. reflexivity. Qed.

(** ** Properties of [remove] *)

(** Removing a field from an object: the old entry of the field, looked up
    with the last field as it is written (not unescaped), is returned, and
    the object is left without that key.  Nothing else on the path
    changes. *)
Theorem value_remove_object_field (pre : list string) (k : string) (v : Value) (m : Map) :
  forallb pointer_field (pre ++ [k]) = true ->
  pointer v (ptr_of pre) = Some (VObject m) ->
  exists v', value_remove v (ptr_of (pre ++ [k])) = inr (map_get m k, v') /\
             pointer v' (ptr_of pre) = Some (VObject (map_remove m k)) /\
             v' = set_at v pre (VObject (map_remove m k)).
Proof.
  intros Hf Hp.
  destruct (pointer_field_split _ Hf) as [Hs Hne].
  apply Forall_app in Hne as [Hpre Hk]. inversion Hk as [|? ? Hk0 _]; subst.
  assert (Hspre : forallb no_slash pre = true)
    by (rewrite forallb_app in Hs; apply andb_true_iff in Hs as [H _]; exact H).
  rewrite (pointer_ptr_of _ _ Hspre) in Hp.
  exists (set_at v pre (VObject (map_remove m k))).
  rewrite (value_remove_ptr_of _ _ Hs), (remove_descend pre k Hpre v _ Hp).
  cbn [remove]. apply String.eqb_neq in Hk0. rewrite Hk0.
  split; [reflexivity|]. split; [|reflexivity].
  rewrite (pointer_ptr_of _ _ Hspre). eapply pointer_set_at. exact Hp.
Qed.

Lemma value_remove_object_field_witness :
  pointer (obj [("field1.0", obj [("field1.1", VString "value1.1");
                                  ("field1.2", VString "value1.2")]);
                ("field2.0", VString "value2.0")]) (ptr_of ["field1.0"])
  = Some (obj [("field1.1", VString "value1.1"); ("field1.2", VString "value1.2")]) /\
  exists v', value_remove (obj [("field1.0", obj [("field1.1", VString "value1.1");
                                                  ("field1.2", VString "value1.2")]);
                                ("field2.0", VString "value2.0")])
                          (ptr_of (["field1.0"] ++ ["field1.2"]))
             = inr (Some (VString "value1.2"), v').
Proof.
  split; [reflexivity|].
  destruct (value_remove_object_field ["field1.0"] "field1.2"
              (obj [("field1.0", obj [("field1.1", VString "value1.1");
                                      ("field1.2", VString "value1.2")]);
                    ("field2.0", VString "value2.0")])
              [("field1.1", VString "value1.1"); ("field1.2", VString "value1.2")]
              ltac:(reflexivity) ltac:(reflexivity)) as (v' & H & _).
  exists v'. exact H.
Defined.

(** Removing an element of an array: a last field that [usize::from_str]
    reads as an index below the length (["+1"] and ["01"] included) removes
    that element, returns it, and shifts the later ones down. *)
Theorem value_remove_array_element (pre : list string) (k : string) (v : Value)
  (l : list Value) (i : N) :
  forallb pointer_field (pre ++ [k]) = true ->
  pointer v (ptr_of pre) = Some (VArray l) ->
  parse_usize k = Some i ->
  (i < N.of_nat (length l))%N ->
  exists v', value_remove v (ptr_of (pre ++ [k])) = inr (nth_error l (N.to_nat i), v') /\
             pointer v' (ptr_of pre) = Some (VArray (remove_nth l (N.to_nat i))).
Proof.
  intros Hf Hp Hi Hlt.
  destruct (pointer_field_split _ Hf) as [Hs Hne].
  apply Forall_app in Hne as [Hpre Hk]. inversion Hk as [|? ? Hk0 _]; subst.
  assert (Hspre : forallb no_slash pre = true)
    by (rewrite forallb_app in Hs; apply andb_true_iff in Hs as [H _]; exact H).
  rewrite (pointer_ptr_of _ _ Hspre) in Hp.
  exists (set_at v pre (VArray (remove_nth l (N.to_nat i)))).
  rewrite (value_remove_ptr_of _ _ Hs), (remove_descend pre k Hpre v _ Hp).
  cbn [remove]. apply String.eqb_neq in Hk0. rewrite Hk0, Hi.
  assert (Hleb : N.leb (N.of_nat (length l)) i = false) by (apply N.leb_gt; exact Hlt).
  rewrite Hleb.
  split; [reflexivity|].
  rewrite (pointer_ptr_of _ _ Hspre). eapply pointer_set_at. exact Hp.
Qed.

Lemma value_remove_array_element_witness :
  exists v', value_remove (obj [("my_table", VArray [VString "a"; VString "b"; VString "c"])])
                          (ptr_of (["my_table"] ++ ["+1"]))
             = inr (Some (VString "b"), v') /\
             pointer v' (ptr_of ["my_table"]) = Some (VArray [VString "a"; VString "c"]).
Proof.
  destruct (value_remove_array_element ["my_table"] "+1"
              (obj [("my_table", VArray [VString "a"; VString "b"; VString "c"])])
              [VString "a"; VString "b"; VString "c"] 1
              ltac:(reflexivity) ltac:(reflexivity) ltac:(reflexivity)
              ltac:(vm_compute; reflexivity)) as (v' & H1 & H2).
  exists v'. split; [exact H1 | exact H2].
Defined.

(** An index at or past the end of the array is an error carrying the index,
    the length and the array. *)
Theorem value_remove_index_out_of_range (pre : list string) (k : string) (v : Value)
  (l : list Value) (i : N) :
  forallb pointer_field (pre ++ [k]) = true ->
  pointer v (ptr_of pre) = Some (VArray l) ->
  parse_usize k = Some i ->
  (N.of_nat (length l) <= i)%N ->
  value_remove v (ptr_of (pre ++ [k])) = inl (IndexOutOfRange i (N.of_nat (length l)) (VArray l)).
Proof.
  intros Hf Hp Hi Hle.
  destruct (pointer_field_split _ Hf) as [Hs Hne].
  apply Forall_app in Hne as [Hpre Hk]. inversion Hk as [|? ? Hk0 _]; subst.
  assert (Hspre : forallb no_slash pre = true)
    by (rewrite forallb_app in Hs; apply andb_true_iff in Hs as [H _]; exact H).
  rewrite (pointer_ptr_of _ _ Hspre) in Hp.
  rewrite (value_remove_ptr_of _ _ Hs), (remove_descend pre k Hpre v _ Hp).
  cbn [remove]. apply String.eqb_neq in Hk0. rewrite Hk0, Hi.
  assert (Hleb : N.leb (N.of_nat (length l)) i = true) by (apply N.leb_le; exact Hle).
  rewrite Hleb. reflexivity.
Qed.

Lemma value_remove_index_out_of_range_witness :
  value_remove (obj [("my_table", VArray [VString "a"; VString "b"; VString "c"])])
               (ptr_of (["my_table"] ++ ["3"]))
  = inl (IndexOutOfRange 3 3 (VArray [VString "a"; VString "b"; VString "c"])).
Proof.
  exact (value_remove_index_out_of_range ["my_table"] "3"
           (obj [("my_table", VArray [VString "a"; VString "b"; VString "c"])])
           [VString "a"; VString "b"; VString "c"] 3
           ltac:(reflexivity) ltac:(reflexivity) ltac:(reflexivity)
           ltac:(vm_compute; discriminate)).
Defined.

(** When the path up to the last field leads nowhere, [remove] returns
    [Ok(None)] and changes nothing, even where the last field would be a bad
    array index. *)
Theorem value_remove_missing_parent (pre : list string) (k : string) (v : Value) :
  forallb pointer_field (pre ++ [k]) = true ->
  pointer v (ptr_of pre) = None ->
  value_remove v (ptr_of (pre ++ [k])) = inr (None, v).
Proof.
  intros Hf Hp.
  destruct (pointer_field_split _ Hf) as [Hs Hne].
  apply Forall_app in Hne as [Hpre _].
  assert (Hspre : forallb no_slash pre = true)
    by (rewrite forallb_app in Hs; apply andb_true_iff in Hs as [H _]; exact H).
  rewrite (pointer_ptr_of _ _ Hspre) in Hp.
  rewrite (value_remove_ptr_of _ _ Hs). exact (remove_missing pre k Hpre v Hp).
Qed.

Lemma value_remove_missing_parent_witness :
  value_remove (obj [("a", VArray [])]) (ptr_of (["b"] ++ ["x"])) = inr (None, obj [("a", VArray [])]).
Proof.
  exact (value_remove_missing_parent ["b"] "x" (obj [("a", VArray [])])
           ltac:(reflexivity) ltac:(reflexivity)).
Defined.

(** No field, or an empty field anywhere (a pointer such as [""], ["/"],
    ["//a"] or ["/a/"]): [remove] returns [Ok(None)] and changes nothing. *)
Theorem remove_empty_field (fields : list string) (v : Value) :
  fields = [] \/ In "" fields -> remove v fields = inr (None, v).
Proof.
  revert v. induction fields as [|f fs IH]; intros v H; [reflexivity|].
  destruct (String.eqb f "") eqn:Ef.
  { destruct fs; cbn [remove]; rewrite Ef; reflexivity. }
  destruct H as [H|[H|H]]; [discriminate | apply String.eqb_neq in Ef; congruence|].
  destruct fs as [|a rest]; [destruct H|].
  assert (IH' := fun c => IH c (or_intror H)).
  rewrite remove_step, Ef. cbv zeta.
  destruct v as [| | | | l | m]; try reflexivity.
  - destruct (parse_index (unescape_token f)) as [i|]; [|reflexivity].
    destruct (nth_error l i) as [c|] eqn:Ec; [|reflexivity].
    rewrite IH', (list_set_id _ _ _ Ec). reflexivity.
  - destruct (map_get m (unescape_token f)) as [c|] eqn:Ec; [|reflexivity].
    rewrite IH', (map_set_id _ _ _ Ec). reflexivity.
Qed.

Lemma remove_empty_field_witness :
  remove (obj [("a", obj [("b", VNull)])]) ["a"; ""; "b"] = inr (None, obj [("a", obj [("b", VNull)])]).
Proof.
  exact (remove_empty_field ["a"; ""; "b"] (obj [("a", obj [("b", VNull)])])
           (or_intror (or_intror (or_introl eq_refl)))).
Defined.

(** [remove] fails only at an array reached by the fields before the last
    one, when the last field is not a [usize] or is past the end. *)
Theorem remove_error_at_array (fields : list string) (v : Value) (e : RemoveError) :
  remove v fields = inl e ->
  exists pre k l, fields = (pre ++ [k])%list /\ pointer_tokens v pre = Some (VArray l) /\
    ((parse_usize k = None /\ e = ParseIntError k (VArray l)) \/
     (exists i, parse_usize k = Some i /\ (N.of_nat (length l) <= i)%N /\
                e = IndexOutOfRange i (N.of_nat (length l)) (VArray l))).
Proof.
  revert v. induction fields as [|f fs IH]; intros v H; [discriminate|].
  destruct (String.eqb f "") eqn:Ef; [destruct fs; cbn [remove] in H; rewrite Ef in H; discriminate|].
  destruct fs as [|a rest].
  - cbn [remove] in H. rewrite Ef in H. destruct v as [| | | | l | m]; try discriminate.
    exists [], f, l. split; [reflexivity|]. split; [reflexivity|].
    destruct (parse_usize f) as [i|].
    + right. exists i. destruct (N.leb (N.of_nat (length l)) i) eqn:Eb; [|discriminate].
      inversion H. split; [reflexivity|]. split; [apply N.leb_le; exact Eb | reflexivity].
    + left. inversion H. split; reflexivity.
  - rewrite remove_step, Ef in H. cbv zeta in H.
    destruct v as [| | | | l | m]; try discriminate.
    + destruct (parse_index (unescape_token f)) as [i|] eqn:Ei; [|discriminate].
      destruct (nth_error l i) as [c|] eqn:Ec; [|discriminate].
      destruct (remove c (a :: rest)) as [e'|[r c']] eqn:Er; [|discriminate].
      inversion H; subst e'.
      destruct (IH c Er) as (pre & k & l' & Hfs & Hpt & He).
      exists (f :: pre), k, l'. split; [rewrite Hfs; reflexivity|]. split; [|exact He].
      rewrite pointer_tokens_cons. simpl. rewrite Ei, Ec. exact Hpt.
    + destruct (map_get m (unescape_token f)) as [c|] eqn:Ec; [|discriminate].
      destruct (remove c (a :: rest)) as [e'|[r c']] eqn:Er; [|discriminate].
      inversion H; subst e'.
      destruct (IH c Er) as (pre & k & l' & Hfs & Hpt & He).
      exists (f :: pre), k, l'. split; [rewrite Hfs; reflexivity|]. split; [|exact He].
      rewrite pointer_tokens_cons. simpl. rewrite Ec. exact Hpt.
Qed.

Lemma remove_error_at_array_witness :
  exists pre k l, ["t"; "x"] = (pre ++ [k])%list /\
    pointer_tokens (obj [("t", VArray [VNull])]) pre = Some (VArray l) /\
    ((parse_usize k = None /\ ParseIntError "x" (VArray [VNull]) = ParseIntError k (VArray l)) \/
     (exists i, parse_usize k = Some i /\ (N.of_nat (length l) <= i)%N /\
                ParseIntError "x" (VArray [VNull]) = IndexOutOfRange i (N.of_nat (length l)) (VArray l))).
Proof.
  exact (remove_error_at_array ["t"; "x"] (obj [("t", VArray [VNull])])
           (ParseIntError "x" (VArray [VNull])) ltac:(reflexivity)).
Defined.

(** * More of the resolver *)

(** ** References inside arrays *)

(** No ["$ref"] key in any object reached through objects; arrays are not
    looked into. *)
Fixpoint no_obj_ref (v : Value) : bool :=
  match v with
  | VObject m => forallb (fun kv => negb (String.eqb (fst kv) "$ref") && no_obj_ref (snd kv)) m
  | _ => true
  end.

Lemma no_obj_ref_get (m : Map) :
  forallb (fun kv => negb (String.eqb (fst kv) "$ref") && no_obj_ref (snd kv)) m = true ->
  map_get m "$ref" = None.
Proof.
  induction m as [|[k v] t IH]; intros H; [reflexivity|].
  cbn [forallb fst snd] in H.
  apply andb_true_iff in H as [H1 H2]. apply andb_true_iff in H1 as [H1 _].
  cbn [map_get]. rewrite String.eqb_sym.
  destruct (String.eqb k "$ref"); [discriminate|]. auto.
Qed.

Section NoObjRef.
Variable http_get : string -> LoadFailure + Value.
Variable read_file : string -> LoadFailure + Value.

Lemma map_values_no_obj_ref f id used :
  (forall v st, is_object (definitions st) = true -> no_obj_ref v = true -> depth v < f ->
     exists st', deref http_get read_file f v id used st = Ok (strip_defs v, st') /\
                 is_object (definitions st') = true) ->
  forall m st, is_object (definitions st) = true ->
  forallb (fun kv => negb (String.eqb (fst kv) "$ref") && no_obj_ref (snd kv)) m = true ->
  Forall (fun kv => depth (snd kv) < f) m ->
  exists st', map_values_M (fun v => deref http_get read_file f v id used) m st =
              Ok (map (fun kv => (fst kv, strip_defs (snd kv))) m, st') /\
              is_object (definitions st') = true.
Proof.
  intros IH m. induction m as [|[k v] t IHm]; intros st Hacc Hnr Hd.
  - exists st. split; [reflexivity | exact Hacc].
  - simpl in Hnr. apply andb_true_iff in Hnr as [Hkv Ht].
    apply andb_true_iff in Hkv as [_ Hv].
    inversion Hd as [|? ? Hdv Hdt]; subst.
    destruct (IH v st Hacc Hv Hdv) as (st1 & Hd1 & Ha1).
    destruct (IHm st1 Ha1 Ht Hdt) as (st2 & Hd2 & Ha2).
    exists st2. split; [|exact Ha2].
    simpl. unfold bind at 1. rewrite Hd1. unfold bind. rewrite Hd2. reflexivity.
Qed.

Lemma deref_no_obj_ref fuel :
  forall v id used st, is_object (definitions st) = true -> no_obj_ref v = true -> depth v < fuel ->
  exists st', deref http_get read_file fuel v id used st = Ok (strip_defs v, st') /\
              is_object (definitions st') = true.
Proof.
  induction fuel as [|f IH]; intros v id used st Hacc Hnr Hd; [simpl in Hd; lia|].
  destruct v as [| | | | l | m];
    try (exists st; split; [reflexivity | exact Hacc]).
  destruct (take_definitions_ok m st Hacc) as (st1 & Htake & _ & _ & Ha1).
  simpl in Hnr, Hd.
  assert (Hnr1 := forallb_map_remove _ m "definitions" Hnr).
  assert (Hd1 : Forall (fun kv => depth (snd kv) < f) (map_remove m "definitions")).
  { apply Forall_map_remove. apply depth_children_bound. lia. }
  destruct (map_values_no_obj_ref f (node_id (VObject m) id) used
              (fun v st => IH v (node_id (VObject m) id) used st)
              (map_remove m "definitions") st1 Ha1 Hnr1 Hd1) as (st2 & Hmv & Ha2).
  exists st2. split; [|exact Ha2].
  simpl deref. unfold bind at 1 2. rewrite Htake.
  unfold map_take. rewrite (no_obj_ref_get _ Hnr1).
  unfold ret at 1. unfold bind. fold (node_id (VObject m) id). rewrite Hmv.
  simpl. rewrite map_remove_map_values. reflexivity.
Qed.

End NoObjRef.

(** [deref] descends only into objects (lines 407-411): a ["$ref"] inside
    an array is never resolved.  A document whose every ["$ref"] sits
    inside an array comes back with only its ["definitions"] keys (those
    reached through objects) removed, arrays and all they hold unchanged. *)
Theorem deref_value_refs_in_arrays_kept http_get read_file dir fuel jr v :
  no_obj_ref v = true ->
  depth v < fuel ->
  result_value (deref_value http_get read_file (Some dir) fuel jr v) = Some (strip_defs v).
Proof.
  intros Hnr Hd. unfold deref_value.
  destruct (deref_no_obj_ref http_get read_file fuel v ("file://" ++ dir ++ "/anon.json") []
              (new_session (mkJsonRef (map_insert (schema_cache jr)
                                         ("file://" ++ dir ++ "/anon.json") v)
                                      (reference_key jr))) eq_refl Hnr Hd)
    as (st' & -> & _).
  reflexivity.
Qed.

Definition array_refs_doc : Value :=
  obj [("allOf", VArray [obj [("$ref", VString "#/definitions/a")]]);
       ("definitions", obj [("a", obj [("type", VString "string")])])].

Lemma deref_value_refs_in_arrays_kept_witness :
  no_obj_ref array_refs_doc = true /\ depth array_refs_doc < 5 /\
  result_value (deref_value no_http no_file (Some "/work") 5 JsonRef_new array_refs_doc)
  = Some (obj [("allOf", VArray [obj [("$ref", VString "#/definitions/a")]])]).
Proof.
  split; [reflexivity|]. split; [vm_compute; lia|].
  exact (deref_value_refs_in_arrays_kept no_http no_file "/work" 5 JsonRef_new array_refs_doc
           eq_refl ltac:(vm_compute; lia)).
Defined.

(** ** The cache of a [JsonRef] across a run *)

Lemma map_get_sorted_insert_other (m : Map) k k' x :
  k <> k' -> map_get (sorted_insert k x m) k' = map_get m k'.
Proof.
  intros Hne. induction m as [|[k0 v0] t IH]; simpl.
  - destruct (String.eqb k' k) eqn:E; [apply String.eqb_eq in E; congruence | reflexivity].
  - assert (E : String.eqb k' k = false) by (apply String.eqb_neq; congruence).
    destruct (String.compare k k0); simpl; rewrite ?E; try reflexivity;
      destruct (String.eqb k' k0); [reflexivity | exact IH | reflexivity | exact IH].
Qed.

Lemma map_get_insert_other (m : Map) k k' x :
  k <> k' -> map_get (map_insert m k x) k' = map_get m k'.
Proof.
  intros Hne. unfold map_insert.
  rewrite map_get_sorted_insert_other by exact Hne. apply map_get_remove_other. exact Hne.
Qed.

(** An entry of the cache is never replaced or dropped by [deref]: a
    document is inserted only under a key that is absent (lines 377-380). *)
Lemma deref_cache_kept http_get read_file fuel v id used st v' st' k x :
  map_get (schema_cache (jsonref st)) k = Some x ->
  deref http_get read_file fuel v id used st = Ok (v', st') ->
  map_get (schema_cache (jsonref st')) k = Some x.
Proof.
  intros Hk H.
  refine (deref_preserves http_get read_file
            (fun s => map_get (schema_cache (jsonref s)) k = Some x)
            _ _ fuel v id used st v' st' Hk H).
  - intros obj0 s o s1 Hs Ht. apply take_definitions_state in Ht as [Hj _]. congruence.
  - intros u key s sch s2 s3 Hs Hl Hc.
    assert (Hj := load_schema_jsonref _ _ _ _ _ _ _ Hl).
    unfold cache_insert_absent, map_contains_key in Hc. rewrite Hj in Hc.
    destruct (map_get (schema_cache (jsonref s)) key) eqn:Ekey; inversion Hc; subst;
      [rewrite Hj; exact Hs|].
    simpl. rewrite map_get_insert_other; [exact Hs|]. intros ->. congruence.
Qed.

(** After a successful [deref_value] the resolver's cache holds the input
    document, unresolved, under [file://<cwd>/anon.json]; every other entry
    it held before is still there with the same document; every identifier
    handed to a loader is cached; and the [reference_key] is unchanged. *)
Theorem deref_value_session http_get read_file dir fuel jr v v' st' :
  deref_value http_get read_file (Some dir) fuel jr v = Ok (v', st') ->
  map_get (schema_cache (jsonref st')) ("file://" ++ dir ++ "/anon.json") = Some v /\
  (forall k x, k <> "file://" ++ dir ++ "/anon.json" ->
     map_get (schema_cache jr) k = Some x -> map_get (schema_cache (jsonref st')) k = Some x) /\
  (forall k, In k (loads st') -> map_get (schema_cache (jsonref st')) k <> None) /\
  reference_key (jsonref st') = reference_key jr.
Proof.
  unfold deref_value. intros H. split; [|split; [|split]].
  - eapply deref_cache_kept; [|exact H]. apply map_get_insert_same.
  - intros k x Hne Hk. eapply deref_cache_kept; [|exact H].
    cbn [schema_cache jsonref new_session].
    rewrite map_get_insert_other by (intros E; apply Hne; symmetry; exact E). exact Hk.
  - intros k Hk. apply map_get_keys.
    apply deref_loads_inv in H as [_ Hin]; [exact (Hin k Hk)|].
    split; [constructor | intros ? []].
  - rewrite (deref_reference_key _ _ _ _ _ _ _ _ _ H). reflexivity.
Qed.

Definition cached_doc : Value := obj [("type", VString "integer")].

Definition cache_jr : JsonRef :=
  mkJsonRef [("http://example.com/s.json", cached_doc)] None.

Lemma deref_value_session_witness :
  exists v' st', deref_value no_http no_file (Some "/work") 5 cache_jr
                   (obj [("$ref", VString "http://example.com/s.json")]) = Ok (v', st') /\
    map_get (schema_cache (jsonref st')) "http://example.com/s.json" = Some cached_doc /\
    loads st' = [].
Proof.
  destruct (deref_value no_http no_file (Some "/work") 5 cache_jr
              (obj [("$ref", VString "http://example.com/s.json")])) as [[v' st']| | |] eqn:E;
    [|vm_compute in E; discriminate ..].
  destruct (deref_value_session no_http no_file "/work" 5 cache_jr
              (obj [("$ref", VString "http://example.com/s.json")]) v' st' E)
    as (_ & Hkept & _ & _).
  exists v', st'. split; [reflexivity|]. split.
  - apply Hkept; [discriminate | reflexivity].
  - vm_compute in E. inversion E. reflexivity.
Defined.

(** ** Errors of a reference *)

(** A node whose base id (its own string ["$id"], or the id it inherits) is
    not an absolute URL: a string ["$ref"] on it fails with
    [UrlParseError] naming that id, before any load. *)
Theorem deref_bad_base_id http_get read_file f obj id used st r :
  is_object (definitions st) = true ->
  map_get obj "$ref" = Some (VString r) ->
  url_parse (node_id (VObject obj) id) = None ->
  deref http_get read_file (S f) (VObject obj) id used st
  = Err (UrlParseError (node_id (VObject obj) id)).
Proof.
  intros Hacc Href Hp.
  destruct (deref_ref_node http_get read_file f obj id used st r Hacc Href)
    as (st1 & _ & _ & _ & ->).
  unfold bind, ok_or, fail. rewrite Hp. reflexivity.
Qed.

Definition bad_id_doc : Map := [("$id", VString "schemas/main.json"); ("$ref", VString "#/a")].

Lemma deref_bad_base_id_witness :
  deref no_http no_file 3 (VObject bad_id_doc) "file:///work/anon.json" [] (new_session JsonRef_new)
  = Err (UrlParseError "schemas/main.json").
Proof.
  exact (deref_bad_base_id no_http no_file 2 bad_id_doc "file:///work/anon.json" []
           (new_session JsonRef_new) "#/a" eq_refl eq_refl eq_refl).
Defined.

(** A reference to an uncached [http] document whose download fails: the
    error is [SchemaFromUrl] when the request fails and [SchemaNotJson]
    when the body is not JSON, both naming the identifier without its
    fragment. *)
Theorem deref_http_load_error http_get read_file f obj id used st r base u fl :
  is_object (definitions st) = true ->
  map_get obj "$ref" = Some (VString r) ->
  url_parse (node_id (VObject obj) id) = Some base ->
  url_join base r = Some u ->
  map_get (schema_cache (jsonref st)) (ref_key u) = None ->
  String.prefix "http" (ref_key u) = true ->
  http_get (ref_key u) = inl fl ->
  deref http_get read_file (S f) (VObject obj) id used st
  = Err (match fl with
         | IoFailure => SchemaFromUrl (ref_key u)
         | ParseFailure => SchemaNotJson (ref_key u)
         end).
Proof.
  intros Hacc Href Hp Hj Hc Hh Hg.
  destruct (deref_ref_node http_get read_file f obj id used st r Hacc Href)
    as (st1 & Hjr & _ & _ & ->).
  unfold bind, ok_or, ret. rewrite Hp, Hj.
  unfold load_schema. rewrite Hjr. fold (ref_key u). rewrite Hc, Hh, Hg.
  destruct fl; reflexivity.
Qed.

Definition http_ref_doc : Map := [("$ref", VString "http://example.com/s.json#/x")].

Lemma deref_http_load_error_witness :
  deref no_http no_file 3 (VObject http_ref_doc) "file:///work/anon.json" [] (new_session JsonRef_new)
  = Err (SchemaFromUrl "http://example.com/s.json").
Proof.
  exact (deref_http_load_error no_http no_file 2 http_ref_doc "file:///work/anon.json" []
           (new_session JsonRef_new) "http://example.com/s.json#/x"
           (mkUrl "file" "///work/anon.json" None)
           (mkUrl "http" "//example.com/s.json" (Some "/x")) IoFailure
           eq_refl eq_refl eq_refl eq_refl eq_refl eq_refl eq_refl).
Defined.

(** The same for an uncached [file] document: the loader reads the URL's
    path, and the error, [SchemaFromFile] when the file cannot be read and
    [SchemaNotJsonSerde] when it is not JSON, names the identifier. *)
Theorem deref_file_load_error http_get read_file f obj id used st r base u fl :
  is_object (definitions st) = true ->
  map_get obj "$ref" = Some (VString r) ->
  url_parse (node_id (VObject obj) id) = Some base ->
  url_join base r = Some u ->
  map_get (schema_cache (jsonref st)) (ref_key u) = None ->
  String.prefix "http" (ref_key u) = false ->
  String.prefix "file" (ref_key u) = true ->
  read_file (url_path u) = inl fl ->
  deref http_get read_file (S f) (VObject obj) id used st
  = Err (match fl with
         | IoFailure => SchemaFromFile (ref_key u)
         | ParseFailure => SchemaNotJsonSerde (ref_key u)
         end).
Proof.
  intros Hacc Href Hp Hj Hc Hh Hf Hg.
  destruct (deref_ref_node http_get read_file f obj id used st r Hacc Href)
    as (st1 & Hjr & _ & _ & ->).
  unfold bind, ok_or, ret. rewrite Hp, Hj.
  unfold load_schema. rewrite Hjr. fold (ref_key u).
  rewrite Hc, Hh, Hf.
  change (url_path (url_set_fragment u None)) with (url_path u). rewrite Hg.
  destruct fl; reflexivity.
Qed.

Definition not_json_file : string -> LoadFailure + Value := fun _ => inl ParseFailure.

Definition file_ref_doc : Map := [("$ref", VString "other.json")].

Lemma deref_file_load_error_witness :
  deref no_http not_json_file 3 (VObject file_ref_doc) "file:///work/anon.json" []
        (new_session JsonRef_new)
  = Err (SchemaNotJsonSerde "file:///work/other.json").
Proof.
  exact (deref_file_load_error no_http not_json_file 2 file_ref_doc "file:///work/anon.json" []
           (new_session JsonRef_new) "other.json"
           (mkUrl "file" "///work/anon.json" None)
           (mkUrl "file" "///work/other.json" None) ParseFailure
           eq_refl eq_refl eq_refl eq_refl eq_refl eq_refl eq_refl eq_refl).
Defined.

(** ** The cycle guard *)

(** A reference whose URL (with its fragment) is already in [used_refs]
    resolves to nothing: the node loses its ["$ref"] and ["definitions"]
    keys and is returned at once, its other values not visited (the early
    [return Ok(())] of lines 388-390), so a ["$ref"] among them stays. *)
Theorem deref_cycle_cut http_get read_file f obj id used st r base u doc :
  is_object (definitions st) = true ->
  map_get obj "$ref" = Some (VString r) ->
  url_parse (node_id (VObject obj) id) = Some base ->
  url_join base r = Some u ->
  map_get (schema_cache (jsonref st)) (ref_key u) = Some doc ->
  match url_fragment u with Some fr => pointer doc fr <> None | None => True end ->
  In (url_to_string u) used ->
  exists st', deref http_get read_file (S f) (VObject obj) id used st
              = Ok (VObject (map_remove (map_remove obj "definitions") "$ref"), st').
Proof.
  intros Hacc Href Hp Hj Hc Hfr Hin.
  assert (Hex : existsb (String.eqb (url_to_string u)) used = true).
  { apply existsb_exists. exists (url_to_string u). split; [exact Hin | apply String.eqb_refl]. }
  destruct (deref_ref_node http_get read_file f obj id used st r Hacc Href)
    as (st1 & Hjr & _ & _ & ->).
  unfold bind at 1. unfold bind at 1, ok_or at 1, ret at 1. rewrite Hp.
  unfold bind at 1, ok_or at 1, ret at 1. rewrite Hj.
  unfold bind at 1. unfold load_schema at 1. rewrite Hjr. fold (ref_key u). rewrite Hc.
  unfold bind at 1. unfold cache_insert_absent at 1, map_contains_key. rewrite Hjr, Hc.
  unfold bind at 1.
  destruct (url_fragment u) as [fr|].
  - destruct (pointer doc fr) as [d|] eqn:Ep; [|contradiction].
    unfold ok_or, ret at 1. rewrite Hex. eexists. reflexivity.
  - unfold ret at 1. rewrite Hex. eexists. reflexivity.
Qed.

Definition cycle_node : Map :=
  [("$ref", VString "#/a"); ("b", obj [("$ref", VString "#/nowhere")])].

Definition cycle_session : Session :=
  new_session (mkJsonRef [("file:///w/x.json", obj [("a", VNull)])] None).

Lemma deref_cycle_cut_witness :
  deref no_http no_file 4 (VObject cycle_node) "file:///w/x.json" ["file:///w/x.json#/a"]
        cycle_session
  = Ok (obj [("b", obj [("$ref", VString "#/nowhere")])], cycle_session) /\
  exists st', deref no_http no_file 4 (VObject cycle_node) "file:///w/x.json"
                    ["file:///w/x.json#/a"] cycle_session
              = Ok (VObject (map_remove (map_remove cycle_node "definitions") "$ref"), st').
Proof.
  split; [vm_compute; reflexivity|].
  exact (deref_cycle_cut no_http no_file 3 cycle_node "file:///w/x.json" ["file:///w/x.json#/a"]
           cycle_session "#/a" (mkUrl "file" "///w/x.json" None)
           (mkUrl "file" "///w/x.json" (Some "/a")) (obj [("a", VNull)])
           eq_refl eq_refl eq_refl eq_refl eq_refl ltac:(discriminate) (or_introl eq_refl)).
Defined.

(** ** What the entry points return *)

(** After a successful [deref_value], no object reached through objects
    holds a ["$ref"] or a ["definitions"] key, provided the
    [reference_key], if set, is neither of those two. *)
Theorem deref_value_result_clean http_get read_file dir fuel jr v v' st' :
  rk_ok (reference_key jr) ->
  deref_value http_get read_file (Some dir) fuel jr v = Ok (v', st') ->
  clean v' = true.
Proof.
  intros Hrk H. unfold deref_value in H.
  eapply deref_clean; [|exact H]. exact Hrk.
Qed.

Lemma deref_value_result_clean_witness :
  exists v' st', deref_value no_http no_file (Some "/work") 5 (set_reference_key JsonRef_new "$orig") scenarioA
                 = Ok (v', st') /\ clean v' = true.
Proof.
  destruct (deref_value no_http no_file (Some "/work") 5
              (set_reference_key JsonRef_new "$orig") scenarioA)
    as [[v' st']| | |] eqn:E; [|vm_compute in E; discriminate ..].
  exists v', st'. split; [reflexivity|].
  exact (deref_value_result_clean no_http no_file "/work" 5
           (set_reference_key JsonRef_new "$orig") scenarioA v' st'
           ltac:(split; discriminate) E).
Defined.

(** The same for [deref_url]: unlike [deref_file], it does not put the
    accumulated definitions back, so no ["definitions"] key is left. *)
Theorem deref_url_result_clean http_get read_file fuel jr url v' st' :
  rk_ok (reference_key jr) ->
  deref_url http_get read_file fuel jr url = Ok (v', st') ->
  clean v' = true.
Proof.
  intros Hrk H. unfold deref_url in H.
  destruct (http_get url) as [[|]|value]; try discriminate.
  eapply deref_clean; [|exact H]. exact Hrk.
Qed.

Definition url_defs_doc : Value :=
  obj [("definitions", obj [("a", obj [("type", VString "string")])]);
       ("properties", obj [("p", obj [("$ref", VString "#/definitions/a")])])].

Definition url_defs_http : string -> LoadFailure + Value :=
  fun u => if String.eqb u "http://example.com/d.json" then inr url_defs_doc else inl IoFailure.

Lemma deref_url_result_clean_witness :
  deref_url url_defs_http no_file 6 JsonRef_new "http://example.com/d.json"
  = Ok (obj [("properties", obj [("p", obj [("type", VString "string")])])],
        mkSession (mkJsonRef [("http://example.com/d.json", url_defs_doc)] None)
                  (obj [("a", obj [("type", VString "string")])]) []
                  [[("a", obj [("type", VString "string")])]]) /\
  clean (obj [("properties", obj [("p", obj [("type", VString "string")])])]) = true.
Proof.
  split; [vm_compute; reflexivity|].
  exact (deref_url_result_clean url_defs_http no_file 6 JsonRef_new "http://example.com/d.json"
           _ _ I ltac:(vm_compute; reflexivity)).
Defined.

(** ** The definitions accumulator *)

(** Merging a ["definitions"] object (whose keys are distinct, as in any
    [serde_json] map) into the accumulator: its entries win, the
    accumulator's other entries stay (lines 328-332). *)
Theorem merge_defs_get (acc def_obj : Map) (k : string) :
  NoDup (map fst def_obj) ->
  map_get (merge_defs acc def_obj) k =
  match map_get def_obj k with Some v => Some v | None => map_get acc k end.
Proof.
  unfold merge_defs. revert acc.
  induction def_obj as [|[k0 v0] t IH]; intros acc Hnd; [reflexivity|].
  inversion Hnd as [|? ? Hk0 Hnd']; subst. cbn [fold_left fst snd map_get].
  rewrite (IH _ Hnd').
  destruct (String.eqb k k0) eqn:E.
  - apply String.eqb_eq in E. subst k0.
    assert (Hn : map_get t k = None).
    { destruct (map_get t k) eqn:Et; [|reflexivity].
      exfalso. apply Hk0. apply map_get_keys. congruence. }
    rewrite Hn. apply map_get_insert_same.
  - apply String.eqb_neq in E.
    destruct (map_get t k); [reflexivity|].
    apply map_get_insert_other. congruence.
Qed.

Lemma merge_defs_get_witness :
  map_get (merge_defs [("a", VNull); ("b", VBool true)] [("b", VBool false); ("c", VNull)]) "b"
  = Some (VBool false).
Proof.
  exact (merge_defs_get [("a", VNull); ("b", VBool true)] [("b", VBool false); ("c", VNull)] "b"
           ltac:(repeat constructor; simpl; intuition discriminate)).
Defined.

(** * The [reference_key] rule in general (C5) *)

(** After the load and the cache insertion of a reference, the cache holds
    the document the load returned. *)
Lemma load_then_cache_get http_get read_file u key st doc s x s' :
  load_schema http_get read_file u key st = Ok (doc, s) ->
  cache_insert_absent key doc s = Ok (x, s') ->
  map_get (schema_cache (jsonref s')) key = Some doc.
Proof.
  intros Hl Hc. assert (Hj := load_schema_jsonref _ _ _ _ _ _ _ Hl).
  unfold cache_insert_absent, map_contains_key in Hc.
  destruct (map_get (schema_cache (jsonref s)) key) as [c|] eqn:Es; inversion Hc; subst.
  - rewrite Es. unfold load_schema in Hl. rewrite Hj in Es. rewrite Es in Hl.
    inversion Hl. reflexivity.
  - simpl. apply map_get_insert_same.
Qed.

Lemma existsb_eqb_not_in (x : string) (l : list string) :
  ~ In x l -> existsb (String.eqb x) l = false.
Proof.
  intros Hn. destruct (existsb (String.eqb x) l) eqn:E; [|reflexivity].
  apply existsb_exists in E as (y & Hy & Hxy). apply String.eqb_eq in Hxy. subst. contradiction.
Qed.

(** C5 (amended): with [reference_key] set to [k], a node holding a string
    ["$ref"] next to other keys, whose reference is not cut by the cycle
    guard, is replaced by the referenced content (the document cached under
    the fragment-stripped URL, at the fragment's pointer), itself resolved.
    When that resolved content is an object [new_obj], the node's former
    content without ["$ref"] and ["definitions"] is inserted into it under
    [k], and the resulting object is resolved once more, value by value
    with the node's base id (lines 407-411), so the stored siblings are
    resolved too; the result has the key [k].  When the resolved content is
    not an object, it is the result, and the siblings are dropped. *)
Theorem deref_reference_key_rule http_get read_file f obj id used st r base u k v' st' :
  is_object (definitions st) = true ->
  reference_key (jsonref st) = Some k ->
  map_get obj "$ref" = Some (VString r) ->
  url_parse (node_id (VObject obj) id) = Some base ->
  url_join base r = Some u ->
  ~ In (url_to_string u) used ->
  deref http_get read_file (S f) (VObject obj) id used st = Ok (v', st') ->
  exists doc target s1 resolved s2,
    map_get (schema_cache (jsonref s1)) (ref_key u) = Some doc /\
    match url_fragment u with Some fr => pointer doc fr = Some target | None => target = doc end /\
    deref http_get read_file f target (ref_key u) (used ++ [url_to_string u]) s1
      = Ok (resolved, s2) /\
    match resolved with
    | VObject new_obj =>
        exists m', v' = VObject m' /\ In k (map fst m') /\
          map_values_M (fun c => deref http_get read_file f c (node_id (VObject obj) id) used)
            (map_insert new_obj k (VObject (map_remove (map_remove obj "definitions") "$ref")))
            s2 = Ok (m', st')
    | _ => v' = resolved /\ st' = s2
    end.
Proof.
  intros Hacc Hrk Href Hp Hj Hnin H.
  destruct (deref_ref_node http_get read_file f obj id used st r Hacc Href)
    as (st1 & Hjr & _ & _ & Hrun).
  rewrite Hrun in H. clear Hrun.
  apply bind_ok in H as (step & s & Hstep & H).
  apply bind_ok in Hstep as (id_url & s0 & H0 & Hstep).
  unfold ok_or in H0. rewrite Hp in H0. apply ret_ok in H0 as [<- <-].
  apply bind_ok in Hstep as (ref_url & s0 & H0 & Hstep).
  unfold ok_or in H0. rewrite Hj in H0. apply ret_ok in H0 as [<- <-].
  apply bind_ok in Hstep as (doc & s2a & Hload & Hstep).
  apply bind_ok in Hstep as (x & s3 & Hins & Hstep).
  assert (Hcache := load_then_cache_get _ _ _ _ _ _ _ _ _ Hload Hins).
  assert (Hrk3 : reference_key (jsonref s3) = Some k).
  { rewrite (cache_insert_absent_rk _ _ _ _ _ Hins), (load_schema_jsonref _ _ _ _ _ _ _ Hload).
    congruence. }
  apply bind_ok in Hstep as (target & s4 & Hfrag & Hstep).
  assert (Htarget : s4 = s3 /\
                    match url_fragment u with
                    | Some fr => pointer doc fr = Some target
                    | None => target = doc
                    end).
  { destruct (url_fragment u) as [fr|].
    - unfold ok_or in Hfrag. destruct (pointer doc fr) as [t|]; [|discriminate].
      apply ret_ok in Hfrag as [-> ->]. split; reflexivity.
    - apply ret_ok in Hfrag as [-> ->]. split; reflexivity. }
  destruct Htarget as [-> Htarget].
  rewrite (existsb_eqb_not_in _ _ Hnin) in Hstep.
  apply bind_ok in Hstep as (resolved & s5 & Hrec & Hstep).
  apply bind_ok in Hstep as (rk & s6 & Hget & Hstep).
  unfold get_reference_key in Hget. inversion Hget; subst rk s6.
  apply ret_ok in Hstep as [<- <-].
  rewrite (deref_reference_key _ _ _ _ _ _ _ _ _ Hrec), Hrk3 in H.
  exists doc, target, s3, resolved, s5.
  split; [exact Hcache|]. split; [exact Htarget|]. split; [exact Hrec|].
  destruct resolved as [| | | | l | new_obj];
    try (apply ret_ok in H as [<- <-]; split; reflexivity).
  apply bind_ok in H as (m' & s7 & Hmv & H). apply ret_ok in H as [<- <-].
  exists m'. split; [reflexivity|]. split; [|exact Hmv].
  rewrite (map_values_keys _ _ _ _ _ Hmv). apply keys_map_insert. left. reflexivity.
Qed.

Definition prop2_node : Map := [("$ref", VString "#/properties/prop1"); ("title", VString "old_title")].

Definition scenarioB_session : Session :=
  new_session (mkJsonRef [("file:///work/anon.json", scenarioB)] (Some "__reference__")).

Lemma deref_reference_key_rule_witness :
  deref no_http no_file 6 (VObject prop2_node) "file:///work/anon.json" [] scenarioB_session
  = Ok (obj [("__reference__", obj [("title", VString "old_title")]); ("title", VString "name")],
        scenarioB_session) /\
  exists doc target s1 resolved s2,
    map_get (schema_cache (jsonref s1)) "file:///work/anon.json" = Some doc /\
    pointer doc "/properties/prop1" = Some target /\
    deref no_http no_file 5 target "file:///work/anon.json" ["file:///work/anon.json#/properties/prop1"] s1
      = Ok (resolved, s2) /\
    match resolved with
    | VObject new_obj =>
        exists m', obj [("__reference__", obj [("title", VString "old_title")]); ("title", VString "name")]
                   = VObject m' /\ In "__reference__" (map fst m') /\
          map_values_M (fun c => deref no_http no_file 5 c "file:///work/anon.json" [])
            (map_insert new_obj "__reference__" (VObject (map_remove (map_remove prop2_node "definitions") "$ref")))
            s2 = Ok (m', scenarioB_session)
    | _ => obj [("__reference__", obj [("title", VString "old_title")]); ("title", VString "name")]
           = resolved /\ scenarioB_session = s2
    end.
Proof.
  assert (E : deref no_http no_file 6 (VObject prop2_node) "file:///work/anon.json" [] scenarioB_session
              = Ok (obj [("__reference__", obj [("title", VString "old_title")]); ("title", VString "name")],
                    scenarioB_session)) by (vm_compute; reflexivity).
  split; [exact E|].
  exact (deref_reference_key_rule no_http no_file 5 prop2_node "file:///work/anon.json" []
           scenarioB_session "#/properties/prop1" (mkUrl "file" "///work/anon.json" None)
           (mkUrl "file" "///work/anon.json" (Some "/properties/prop1")) "__reference__" _ _
           eq_refl eq_refl eq_refl eq_refl eq_refl (fun H => H) E).
Defined.

Definition scalar_target_doc : Value :=
  obj [("b", obj [("$ref", VString "#/n"); ("title", VString "t")]); ("n", VNumber 5)].

(** C5, counterexample: when the referenced content is not an object, the
    node with ["$ref"] and a sibling becomes that content; no
    ["__reference__"] entry is made and the sibling is lost. *)

Lemma deref_value_scalar_target_no_reference :
  result_value (deref_value no_http no_file (Some "/work") 5
                            (set_reference_key JsonRef_new "__reference__") scalar_target_doc)
  = Some (obj [("b", VNumber 5); ("n", VNumber 5)]).
Proof. vm_compute. reflexivity. Qed.

(** * Loads across a session (C6) *)








(** C6, counterexample: two references to the same external identifier,
    both inside an array, cause no load at all. *)

